(** * seabed_map.py: frame selection, world transform and gridding

    A shallow embedding of [src/src/seabed_map.py] (function [main]) and the
    properties of its frame loop and of its histogram-based map, followed by
    the frame loop of [src/src/rosbag_oculus_extraction.py] and the naming of
    the files it writes.

    Modelling choices.
    - A finite Python [float] / numpy [float64] value is the rational it
      denotes ([Q]). Where the result of the script is an integer taken from
      a float, the float64 rounding is written out ([round64]): the bin
      counts of lines 135-136, with the [inf] and [nan] of a division by
      zero, and the seconds of a timestamp in the extraction script. The
      other arithmetic (world transform, edges, sums and means) is the exact
      one, which the float64 results approximate.
    - Python [int] counters are unbounded, hence [Z]; [%] is [Z.modulo]
      (both take the sign of the divisor).
    - The bag reader and message deserialisation are the boundary of the
      model: the bag is the ordered list of already-typed messages.
    - The library functions the script calls with no source here
      ([utm.from_latlon], [bps_oculus.core.unpack_data_entry] and
      [polar_to_cart], [np.cos], [np.sin], [np.deg2rad]) are parameters,
      gathered in the class [Libraries].
    - [np.histogram2d] is modelled after numpy's [histogramdd]: integer bin
      counts are checked to be positive, edges come from [linspace], a sample
      is placed with [searchsorted(side='right')] and the right-most edge is
      folded into the last bin. *)

From Stdlib Require Import Strings.Byte String.
From Stdlib Require Import QArith Qround Qminmax Qpower ZArith Bool Lia Lqa List.
From Stdlib Require Import Ascii DecimalString DecimalZ.
Import ListNotations.

Local Open Scope Q_scope.

(** ** Data model *)

(** The exceptions [main] can end with. *)
Inductive exception : Type :=
| RuntimeError (msg : string)
| ValueError (msg : string)
| OverflowError (msg : string).

(** [argparse.Namespace] returned by [parse_args] (lines 31-43). *)
Record Args : Type := mkArgs {
  bag : string;
  resolution : Q;
  output : string;
  max_frames : option Z;
  skip_frames : Z
}.

(** [polar_image_data] as documented in rosbag_oculus_extraction.py. *)
Record PolarFrame : Type := mkPolar {
  polar_image : list (list Q);
  bearing_table : list Q;
  ranging_table : list Q;
  gain_table : list Q
}.

(** [cart_image_data]: three 2-D tables of one shape. *)
Record CartesianFrame : Type := mkCart {
  cart_image : list (list Q);
  x_table : list (list Q);
  y_table : list (list Q)
}.

(** One message of the bag, by topic, already deserialised. *)
Inductive message : Type :=
| GlobalPosition (latitude longitude : Q)  (* /bluerov2/mavros/global_position/global *)
| CompassHdg (data : Q)                    (* .../compass_hdg *)
| RelAlt (data : Q)                        (* .../rel_alt *)
| OculusRawData (data : list byte)         (* /oculus/raw_data *)
| OtherTopic.

(** The [poses] dictionary: four keys, each [None] until first written. *)
Record Poses : Type := mkPoses {
  easting : option Q;
  northing : option Q;
  heading : option Q;
  depth : option Q
}.

(** The local variables of [main] that the loop updates. *)
Record LoopState : Type := mkState {
  poses : Poses;
  all_xw : list (list Q);
  all_yw : list (list Q);
  all_int : list (list Q);
  total_raw_frames : Z;
  processed_frames : Z
}.

(** How one iteration of the [for] loop ends: [continue] or falling off the
    end of the body both go to the next message, [break] leaves the loop. *)
Inductive control : Type := Next | Break.

(** The library functions the script relies on. *)
Class Libraries : Type := {
  from_latlon : Q -> Q -> Q * Q;
  unpack_data_entry : list byte -> option PolarFrame;
  polar_to_cart : PolarFrame -> CartesianFrame;
  np_deg2rad : Q -> Q;
  np_cos : Q -> Q;
  np_sin : Q -> Q
}.

(** ** numpy helpers *)

(** [a.ravel()] of a 2-D table. *)
Definition ravel (a : list (list Q)) : list Q := concat a.

(** [np.hstack] of a list of 1-D arrays. *)
Definition hstack (a : list (list Q)) : list Q := concat a.

(** Elementwise binary operation on two arrays of one length. *)
Fixpoint map2 {A B C : Type} (f : A -> B -> C) (xs : list A) (ys : list B)
  : list C :=
  match xs, ys with
  | x :: xs', y :: ys' => f x y :: map2 f xs' ys'
  | _, _ => []
  end.

(** [a.min()] and [a.max()]; numpy raises on a zero-size array ([None]). *)
Definition array_min (a : list Q) : option Q :=
  match a with
  | [] => None
  | x :: r => Some (fold_left Qmin r x)
  end.

Definition array_max (a : list Q) : option Q :=
  match a with
  | [] => None
  | x :: r => Some (fold_left Qmax r x)
  end.

(** *** float64 arithmetic

    A float64 value is the rational it denotes, an infinity or NaN (the
    sign of a zero is not kept). An arithmetic operation of IEEE 754 returns
    its exact result rounded to the nearest float64, ties to even; [round64]
    is that rounding: 53 significant bits, the smallest spacing 2^-1074, and
    infinity from 2^1024 on. *)
Inductive float64 : Type :=
| Finite (v : Q)
| Infinity (negative : bool)
| NaN.

(** The integer nearest to [n / d], ties to even ([0 <= n], [0 < d]). *)
Definition round_half_even (n d : Z) : Z :=
  let q := (n / d)%Z in
  match (2 * (n mod d) ?= d)%Z with
  | Lt => q
  | Gt => (q + 1)%Z
  | Eq => if Z.even q then q else (q + 1)%Z
  end.

(** Numerator and denominator of [(n / d) / 2^e]. *)
Definition scaled (n d e : Z) : Z * Z :=
  if (0 <=? e)%Z then (n, d * 2 ^ e)%Z else (n * 2 ^ (- e), d)%Z.

(** The exponent [e] with [2^e <= n / d < 2^(e+1)] ([0 < n], [0 < d]). *)
Definition floor_log2 (n d : Z) : Z :=
  let e0 := (Z.log2 n - Z.log2 d)%Z in
  let '(n', d') := scaled n d e0 in
  if (d' <=? n')%Z then e0 else (e0 - 1)%Z.

Definition round64 (q : Q) : float64 :=
  let r := Qred q in
  let n := Z.abs (Qnum r) in
  let d := Zpos (Qden r) in
  if (n =? 0)%Z then Finite 0
  else
    let e := floor_log2 n d in
    let p := Z.max (e - 52) (-1074) in
    let '(n', d') := scaled n d p in
    let m := round_half_even n' d' in
    let mag := Qred (inject_Z m * 2 ^ p) in
    if Qle_bool (2 ^ 1024) mag then Infinity (Qnum r <? 0)%Z
    else Finite (if (Qnum r <? 0)%Z then - mag else mag).

Definition Qlt_bool (x y : Q) : bool := negb (Qle_bool y x).

(** [a - b] on two finite floats. *)
Definition fsub (a b : Q) : float64 := round64 (a - b).

(** [a / b] for a numpy float [a] and a finite float [b]: a zero divisor
    gives an infinity, or NaN for 0 / 0, with a warning and no exception. *)
Definition fdiv (a : float64) (b : Q) : float64 :=
  match a with
  | NaN => NaN
  | Infinity s => Infinity (xorb s (Qlt_bool b 0))
  | Finite x =>
      if Qeq_bool b 0
      then if Qeq_bool x 0 then NaN else Infinity (Qlt_bool x 0)
      else round64 (x / b)
  end.

(** [int(np.ceil((hi - lo) / res))] (lines 135-136): the difference and the
    quotient are float64 operations, the ceiling of a float is exact, and
    [int] refuses an infinity and NaN. *)
Definition int_ceil_div (hi lo res : Q) : exception + Z :=
  match fdiv (fsub hi lo) res with
  | Finite v => inr (Qceiling v)
  | Infinity _ =>
      inl (OverflowError "cannot convert float infinity to integer")
  | NaN => inl (ValueError "cannot convert float NaN to integer")
  end.

(** The number of bins lines 135-136 give, 0 when [int] raises. *)
Definition bin_count (hi lo res : Q) : Z :=
  match int_ceil_div hi lo res with
  | inr n => n
  | inl _ => 0%Z
  end.

(** [np.linspace(start, stop, n + 1)]: [k * step + start] for [k < n], and
    the end point itself. *)
Definition linspace (start stop : Q) (n : nat) : list Q :=
  map (fun k => inject_Z (Z.of_nat k) * ((stop - start) / inject_Z (Z.of_nat n))
                + start)
      (seq 0 n)
  ++ [stop].

(** [np.searchsorted(edges, x, side='right')] on ascending [edges]. *)
Definition searchsorted_right (edges : list Q) (x : Q) : Z :=
  Z.of_nat (length (filter (fun e => Qle_bool e x) edges)).

(** The bin number [Ncount] of histogramdd: 0 and [n + 1] are the outlier
    bins, [i + 1] is cell [i]; a sample on the last edge moves one bin left. *)
Definition bin_number (edges : list Q) (x : Q) : Z :=
  let c := searchsorted_right edges x in
  if Qeq_bool x (last edges 0) then (c - 1)%Z else c.

Definition in_cell (xedges yedges : list Q) (i j : nat) (x y : Q) : bool :=
  (bin_number xedges x =? Z.of_nat i + 1)%Z
  && (bin_number yedges y =? Z.of_nat j + 1)%Z.

Definition Qsum (l : list Q) : Q := fold_right Qplus 0 l.

(** A sample: [(x, y, weight)]. *)
Definition sample : Type := Q * Q * Q.

Definition samples_in (xedges yedges : list Q) (i j : nat) (l : list sample)
  : list sample :=
  filter (fun s => in_cell xedges yedges i j (fst (fst s)) (snd (fst s))) l.

(** [np.bincount] over the flattened bin numbers, reshaped, outlier rows and
    columns removed: cell [(i, j)] holds the sum of the weights placed there. *)
Definition core_hist (xedges yedges : list Q) (nx ny : nat) (l : list sample)
  : list (list Q) :=
  map (fun i =>
         map (fun j => Qsum (map snd (samples_in xedges yedges i j l)))
             (seq 0 ny))
      (seq 0 nx).

(** The messages of histogramdd for a bin count below 1. *)
Definition bins0_positive : string :=
  "`bins[0]` must be positive, when an integer".

Definition bins1_positive : string :=
  "`bins[1]` must be positive, when an integer".

(** [_get_outer_edges] with an explicit [range]. *)
Definition get_outer_edges (range : Q * Q) : exception + Q * Q :=
  let '(first_edge, last_edge) := range in
  if Qle_bool first_edge last_edge then
    if Qeq_bool first_edge last_edge
    then inr (first_edge - (1#2), last_edge + (1#2))
    else inr (first_edge, last_edge)
  else inl (ValueError "max must be larger than min in range parameter.").

(** [np.histogram2d(x, y, bins=[nx, ny], range=[rx, ry], weights=w)];
    [weights=None] counts every sample once. *)
Definition histogram2d (x y : list Q) (bins : Z * Z) (range : (Q * Q) * (Q * Q))
           (weights : option (list Q))
  : exception + (list (list Q) * list Q * list Q) :=
  if negb (length x =? length y)%nat
  then inl (ValueError "x and y must have the same length.")
  else
    let '(nx, ny) := bins in
    let '(rx, ry) := range in
    if (nx <? 1)%Z
    then inl (ValueError bins0_positive)
    else
      match get_outer_edges rx with
      | inl e => inl e
      | inr (x0, x1) =>
          if (ny <? 1)%Z
          then inl (ValueError bins1_positive)
          else
            match get_outer_edges ry with
            | inl e => inl e
            | inr (y0, y1) =>
                let xedges := linspace x0 x1 (Z.to_nat nx) in
                let yedges := linspace y0 y1 (Z.to_nat ny) in
                let w := match weights with
                         | Some w => w
                         | None => map (fun _ => 1) x
                         end in
                if negb (length w =? length x)%nat
                then inl (ValueError
                            "The weights and list don't have the same length.")
                else
                  inr (core_hist xedges yedges (Z.to_nat nx) (Z.to_nat ny)
                                 (combine (combine x y) w),
                       xedges, yedges)
            end
      end.

(** Lines 152-153: [mask = counts > 0; heatmap[mask] /= counts[mask]]. *)
Definition divide_masked (heatmap counts : list (list Q)) : list (list Q) :=
  map2 (map2 (fun h c => if Qlt_bool 0 c then h / c else h)) heatmap counts.

(** What step 4 of [main] hands to the plot. *)
Record SeabedMap : Type := mkMap {
  heatmap : list (list Q);
  counts : list (list Q);
  xedges : list Q;
  yedges : list Q;
  extent : Q * Q * Q * Q
}.

(** Lines 127-153 and 158: concatenate, bound, bin and normalise. *)
Definition build_map (res : Q) (axw ayw aint : list (list Q))
  : exception + SeabedMap :=
  let xw := hstack axw in
  let yw := hstack ayw in
  let int := hstack aint in
  match array_min xw, array_max xw, array_min yw, array_max yw with
  | Some xmin, Some xmax, Some ymin, Some ymax =>
      match int_ceil_div xmax xmin res with
      | inl e => inl e
      | inr nx =>
          match int_ceil_div ymax ymin res with
          | inl e => inl e
          | inr ny =>
              let range := ((xmin, xmax), (ymin, ymax)) in
              match histogram2d xw yw (nx, ny) range (Some int) with
              | inl e => inl e
              | inr (sums, xe, ye) =>
                  match histogram2d xw yw (nx, ny) range None with
                  | inl e => inl e
                  | inr (cnt, _, _) =>
                      inr (mkMap (divide_masked sums cnt) cnt xe ye
                                 (xmin, xmax, ymin, ymax))
                  end
              end
          end
      end
  | _, _, _, _ =>
      inl (ValueError
             "zero-size array to reduction operation minimum which has no identity")
  end.

(** The command line as argparse sees it: [--bag] is required, the other
    options may be absent. *)
Record CommandLine : Type := mkCommandLine {
  opt_bag : string;
  opt_resolution : option Q;
  opt_output : option string;
  opt_max_frames : option Z;
  opt_skip_frames : option Z
}.

(** Lines 31-43: [parse_args] fills in the defaults and checks nothing else. *)
Definition parse_args (cl : CommandLine) : Args :=
  mkArgs (opt_bag cl)
         (match opt_resolution cl with Some r => r | None => 1#2 end)
         (match opt_output cl with Some o => o | None => "seabed_map.png"%string end)
         (opt_max_frames cl)
         (match opt_skip_frames cl with Some n => n | None => 1%Z end).

(** How a run of the script ends: an exception reaches the caller, or
    [plt.savefig] has written the map to the output path. *)
Inductive outcome : Type :=
| Raised (e : exception)
| Saved (path : string) (m : SeabedMap).

(** The files a run leaves behind. *)
Definition artifacts (o : outcome) : list (string * SeabedMap) :=
  match o with
  | Raised _ => []
  | Saved path m => [(path, m)]
  end.

Definition no_sonar_data : string :=
  "No sonar data collected – check topics & typestore".

Definition poses0 : Poses := mkPoses None None None None.

Definition init : LoopState := mkState poses0 [] [] [] 0%Z 0%Z.

Definition set_position (p : Poses) (e n : Q) : Poses :=
  mkPoses (Some e) (Some n) (heading p) (depth p).
Definition set_heading (p : Poses) (h : Q) : Poses :=
  mkPoses (easting p) (northing p) (Some h) (depth p).
Definition set_depth (p : Poses) (d : Q) : Poses :=
  mkPoses (easting p) (northing p) (heading p) (Some d).

Definition with_poses (st : LoopState) (p : Poses) : LoopState :=
  mkState p (all_xw st) (all_yw st) (all_int st)
          (total_raw_frames st) (processed_frames st).

(** [None in poses.values()] (line 87). *)
Definition none_in_poses (p : Poses) : bool :=
  match easting p, northing p, heading p, depth p with
  | Some _, Some _, Some _, Some _ => false
  | _, _, _, _ => true
  end.

(** The stride test of line 91: [skip_frames > 1 and total % skip_frames != 0]. *)
Definition skipped (args : Args) (total : Z) : bool :=
  (1 <? skip_frames args)%Z && negb (total mod skip_frames args =? 0)%Z.

(** The cap test of line 95:
    [max_frames is not None and processed_frames > max_frames]. *)
Definition over_cap (args : Args) (processed : Z) : bool :=
  match max_frames args with
  | Some m => (m <? processed)%Z
  | None => false
  end.

Section Pipeline.

Context {lib : Libraries}.

(** Lines 114-116: rotate by the heading and translate to UTM. *)
Definition world_x (h e : Q) (xs ys : list Q) : list Q :=
  let theta := np_deg2rad h in
  map (fun v => v + e)
      (map2 Qminus (map (fun x => x * np_cos theta) xs)
                   (map (fun y => y * np_sin theta) ys)).

Definition world_y (h n : Q) (xs ys : list Q) : list Q :=
  let theta := np_deg2rad h in
  map (fun v => v + n)
      (map2 Qplus (map (fun x => x * np_sin theta) xs)
                  (map (fun y => y * np_cos theta) ys)).

(** Lines 85-120: the [/oculus/raw_data] branch, entered with a full pose. *)
Definition sonar_frame (args : Args) (st : LoopState) (e n h : Q)
           (data : list byte) : LoopState * control :=
  let total := (total_raw_frames st + 1)%Z in
  if skipped args total then
    (mkState (poses st) (all_xw st) (all_yw st) (all_int st)
             total (processed_frames st), Next)
  else
    let processed := (processed_frames st + 1)%Z in
    if over_cap args processed then
      (mkState (poses st) (all_xw st) (all_yw st) (all_int st)
               total processed, Break)
    else
      match unpack_data_entry data with
      | None =>
          (mkState (poses st) (all_xw st) (all_yw st) (all_int st)
                   total processed, Next)
      | Some polar =>
          let cart := polar_to_cart polar in
          let xs := ravel (x_table cart) in
          let ys := ravel (y_table cart) in
          let inten := ravel (cart_image cart) in
          (mkState (poses st)
                   (all_xw st ++ [world_x h e xs ys])
                   (all_yw st ++ [world_y h n xs ys])
                   (all_int st ++ [inten])
                   total processed, Next)
      end.

(** Lines 67-120: the body of the loop over [reader.messages()]. *)
Definition body (args : Args) (st : LoopState) (m : message)
  : LoopState * control :=
  match m with
  | GlobalPosition lat lon =>
      let '(e, n) := from_latlon lat lon in
      (with_poses st (set_position (poses st) e n), Next)
  | CompassHdg d => (with_poses st (set_heading (poses st) d), Next)
  | RelAlt d => (with_poses st (set_depth (poses st) d), Next)
  | OculusRawData data =>
      match easting (poses st), northing (poses st),
            heading (poses st), depth (poses st) with
      | Some e, Some n, Some h, Some _ => sonar_frame args st e n h data
      | _, _, _, _ => (st, Next)
      end
  | OtherTopic => (st, Next)
  end.

(** The [for] loop: the final state, and [Some rest] when a [break] left the
    messages [rest] unread, [None] when the reader was exhausted. *)
Fixpoint for_messages (args : Args) (st : LoopState) (msgs : list message)
  : LoopState * option (list message) :=
  match msgs with
  | [] => (st, None)
  | m :: rest =>
      match body args st m with
      | (st', Break) => (st', Some rest)
      | (st', Next) => for_messages args st' rest
      end
  end.

(** Lines 122-171: after the loop. *)
Definition finish (args : Args) (st : LoopState) : outcome :=
  match all_xw st with
  | [] => Raised (RuntimeError no_sonar_data)
  | _ :: _ =>
      match build_map (resolution args) (all_xw st) (all_yw st) (all_int st) with
      | inl e => Raised e
      | inr m => Saved (output args) m
      end
  end.

(** [main], run on a command line and the messages of the bag. *)
Definition main (cl : CommandLine) (msgs : list message) : outcome :=
  let args := parse_args cl in
  finish args (fst (for_messages args init msgs)).

(** The pose after a message, as the pose tracker of the specification
    describes it; [body_poses] relates it to the loop. *)
Definition track (p : Poses) (m : message) : Poses :=
  match m with
  | GlobalPosition lat lon =>
      set_position p (fst (from_latlon lat lon)) (snd (from_latlon lat lon))
  | CompassHdg d => set_heading p d
  | RelAlt d => set_depth p d
  | OculusRawData _ => p
  | OtherTopic => p
  end.

(** The number of sonar messages that arrive while the pose is complete. *)
Fixpoint eligible_frames (p : Poses) (msgs : list message) : Z :=
  match msgs with
  | [] => 0
  | m :: rest =>
      (match m with
       | OculusRawData _ => if none_in_poses p then 0 else 1
       | _ => 0
       end + eligible_frames (track p m) rest)%Z
  end.

End Pipeline.

(** The three accumulated lists of a state. *)
Definition samples_of (st : LoopState)
  : list (list Q) * list (list Q) * list (list Q) :=
  (all_xw st, all_yw st, all_int st).

(** The same arguments with no [--max-frames]. *)
Definition uncapped (args : Args) : Args :=
  mkArgs (bag args) (resolution args) (output args) None (skip_frames args).

(** The same arguments with another [--skip-frames]. *)
Definition with_stride (args : Args) (n : Z) : Args :=
  mkArgs (bag args) (resolution args) (output args) (max_frames args) n.

Definition with_opt_stride (cl : CommandLine) (n : Z) : CommandLine :=
  mkCommandLine (opt_bag cl) (opt_resolution cl) (opt_output cl)
                (opt_max_frames cl) (Some n).

(** ** Vocabulary of the statements about the grid *)

(** Cell [(i, j)] of a grid stored as a list of rows. *)
Definition cell (g : list (list Q)) (i j : nat) : Q := nth j (nth i g []) 0.

Definition minimum_of (m : Q) (l : list Q) : Prop :=
  In m l /\ forall y, In y l -> m <= y.

Definition maximum_of (m : Q) (l : list Q) : Prop :=
  In m l /\ forall y, In y l -> y <= m.

(** Edges in ascending order. *)
Definition ascending (l : list Q) : Prop :=
  forall i j, (i <= j)%nat -> (j < length l)%nat -> nth i l 0 <= nth j l 0.

(** The interval of cell [i] on an axis of [n] cells: closed on the left and
    open on the right, except for the last cell, which includes the last
    edge. *)
Definition bracket (edges : list Q) (n i : nat) (x : Q) : Prop :=
  nth i edges 0 <= x /\ x <= nth (S i) edges 0 /\
  (x < nth (S i) edges 0 \/ S i = n).


(** ** The frame loop: pose gate, stride and cap *)

(** ** Vocabulary of the statements about whole runs *)

(** The same command line with no [--max-frames]. *)
Definition without_cap (cl : CommandLine) : CommandLine :=
  mkCommandLine (opt_bag cl) (opt_resolution cl) (opt_output cl)
                None (opt_skip_frames cl).

(** A bag in which every [rel_alt] reading is replaced by another one. *)
Definition redepth (f : Q -> Q) (m : message) : message :=
  match m with
  | RelAlt d => RelAlt (f d)
  | _ => m
  end.

Definition is_sonar (m : message) : bool :=
  match m with
  | OculusRawData _ => true
  | _ => false
  end.

(** Two states that differ at most in the depth reading. *)
Definition same_but_depth (s t : LoopState) : Prop :=
  easting (poses s) = easting (poses t) /\
  northing (poses s) = northing (poses t) /\
  heading (poses s) = heading (poses t) /\
  (depth (poses s) = None <-> depth (poses t) = None) /\
  samples_of s = samples_of t /\
  total_raw_frames s = total_raw_frames t /\
  processed_frames s = processed_frames t.

(** The three tables of a frame hold one value per pixel. *)
Definition same_shape (c : CartesianFrame) : Prop :=
  length (ravel (y_table c)) = length (ravel (x_table c)) /\
  length (ravel (cart_image c)) = length (ravel (x_table c)).

(** The accumulated lists line up: batch by batch and sample by sample. *)
Definition aligned (st : LoopState) : Prop :=
  length (all_yw st) = length (all_xw st) /\
  length (all_int st) = length (all_xw st) /\
  length (hstack (all_yw st)) = length (hstack (all_xw st)) /\
  length (hstack (all_int st)) = length (hstack (all_xw st)).

Definition zero_size : string :=
  "zero-size array to reduction operation minimum which has no identity".

(** Sums over the rows and over the cells of a grid. *)
Definition sum_upto (n : nat) (f : nat -> Q) : Q := Qsum (map f (seq 0 n)).

Definition grid_total (g : list (list Q)) : Q := Qsum (map Qsum g).

(** ** rosbag_oculus_extraction.py

    The script reads the bag once; every [/oculus/raw_data] message that
    decodes is shown and written to a PNG named after the minute and second
    of its timestamp, until the key [q] is read. A message of the bag is
    taken with its timestamp in nanoseconds; the keys that [cv2.waitKey]
    returns are an input of the model, one per call, and -1 (no key) when
    the list is exhausted. The effect on the disk is the sequence of
    [cv2.imwrite] calls, newest first. *)

(** [int(timestamp / 1e9)], line 85: the int is converted to float64, the
    division is a float64 division, and [int] truncates towards 0 (the
    quotient of numerator by denominator, rounded towards 0). Both
    operations are finite for the timestamps of a bag, which are 64-bit;
    an int beyond the float range makes Python raise OverflowError, which
    this total definition does not model (it returns 0 there). *)
Definition whole_seconds (timestamp : Z) : Z :=
  match round64 (inject_Z timestamp) with
  | Finite t =>
      match round64 (t / 1000000000) with
      | Finite v => Z.quot (Qnum v) (Zpos (Qden v))
      | _ => 0%Z
      end
  | _ => 0%Z
  end.

Definition session_start : Z := 1742392728.

(** Lines 86-89: [while secs >= 60: min += 1; secs -= 60]. Each round takes
    60 from [secs], so [secs] rounds are more than the loop can make. *)
Fixpoint minutes_loop (rounds : nat) (min secs : Z) : Z * Z :=
  match rounds with
  | O => (min, secs)
  | S rounds' =>
      if (60 <=? secs)%Z
      then minutes_loop rounds' (min + 1)%Z (secs - 60)%Z
      else (min, secs)
  end.

Definition minutes_seconds (secs : Z) : Z * Z :=
  minutes_loop (Z.to_nat secs) 0%Z secs.

(** [str] of a Python int. *)
Definition str (z : Z) : string := NilZero.string_of_int (Z.to_int z).

(** Line 90: the f-string of the file name. *)
Definition frame_filename (min secs : Z) : string :=
  ("oculus_frames/oculus_frame_" ++ str min ++ "_min_" ++ str secs
   ++ "_sec.png")%string.

(** The file name of the frame stamped [timestamp] (lines 85-90). *)
Definition filename_at (timestamp : Z) : string :=
  let '(min, secs) := minutes_seconds (whole_seconds timestamp - session_start) in
  frame_filename min secs.

Definition underscore : ascii := "_"%char.

(** No character of the string is an underscore. *)
Fixpoint plain (s : string) : bool :=
  match s with
  | EmptyString => true
  | String c r => negb (Ascii.eqb c underscore) && plain r
  end.

(** [cv2.waitKey(10)]. *)
Definition wait_key (keys : list Z) : Z * list Z :=
  match keys with
  | [] => (-1, [])%Z
  | k :: rest => (k, rest)
  end.

(** Line 93: [key & 0xFF == ord('q')]; [&] binds tighter than [==]. *)
Definition quits (key : Z) : bool := (Z.land key 255 =? 113)%Z.

Section Extraction.

Context {lib : Libraries}.

(** Lines 61-94: the loop over the messages of the bag. *)
Fixpoint extract_frames (msgs : list (Z * message)) (keys : list Z)
         (written : list (string * list (list Q)))
  : list (string * list (list Q)) :=
  match msgs with
  | [] => written
  | (timestamp, OculusRawData data) :: rest =>
      match unpack_data_entry data with
      | None => extract_frames rest keys written
      | Some polar =>
          let cart := polar_to_cart polar in
          let written' :=
            (filename_at timestamp, cart_image cart) :: written in
          let '(key, keys') := wait_key keys in
          if quits key then written'
          else extract_frames rest keys' written'
      end
  | _ :: rest => extract_frames rest keys written
  end.

(** The image files of the frames of a bag that decode, in bag order. *)
Fixpoint decodable_frames (msgs : list (Z * message))
  : list (string * list (list Q)) :=
  match msgs with
  | [] => []
  | (timestamp, OculusRawData data) :: rest =>
      match unpack_data_entry data with
      | None => decodable_frames rest
      | Some polar =>
          (filename_at timestamp, cart_image (polar_to_cart polar))
            :: decodable_frames rest
      end
  | _ :: rest => decodable_frames rest
  end.

End Extraction.

(** How many frames are written before the loop stops on a key: one more
    than the number of keys read before the first [q]; [None] when no key
    read is a [q]. *)
Fixpoint frames_until_quit (keys : list Z) : option nat :=
  match keys with
  | [] => None
  | k :: rest =>
      if quits k then Some 1%nat
      else option_map S (frames_until_quit rest)
  end.

Definition first_frames {A : Type} (n : option nat) (l : list A) : list A :=
  match n with
  | Some k => firstn k l
  | None => l
  end.

(** ** A synthetic bag for the worked examples *)

Definition byte_value (b : byte) : Q := inject_Z (Z.of_N (Byte.to_N b)).

(** The pixels of a synthetic payload: three bytes (x, y, intensity) each. *)
Fixpoint triples (data : list byte) : option (list sample) :=
  match data with
  | [] => Some []
  | x :: y :: i :: rest =>
      match triples rest with
      | Some px => Some ((byte_value x, byte_value y, byte_value i) :: px)
      | None => None
      end
  | _ => None
  end.

(** A synthetic decoder: the empty payload and a payload that is not made of
    triples are not pings; otherwise the frame is one row of pixels whose
    local coordinates are carried in the bearing and range tables. *)
Definition synthetic_unpack (data : list byte) : option PolarFrame :=
  match data with
  | [] => None
  | _ :: _ =>
      match triples data with
      | Some px =>
          Some (mkPolar [map snd px] (map (fun s => fst (fst s)) px)
                        (map (fun s => snd (fst s)) px) [1])
      | None => None
      end
  end.

Definition synthetic_cart (p : PolarFrame) : CartesianFrame :=
  mkCart (polar_image p) [bearing_table p] [ranging_table p].

(** Stand-ins for the libraries: the position is taken as it comes, and the
    trigonometric functions are rational approximations, exact at 0. *)
Definition synthetic : Libraries := {|
  from_latlon := fun lat lon => (lon, lat);
  unpack_data_entry := synthetic_unpack;
  polar_to_cart := synthetic_cart;
  np_deg2rad := fun d => Qred (d * (355 # 113) / 180);
  np_cos := fun t => Qred (1 - t * t / 2);
  np_sin := fun t => Qred t
|}.

(** A decoder whose frames hold no pixel at all. *)
Definition blank : Libraries := {|
  from_latlon := fun lat lon => (lon, lat);
  unpack_data_entry := fun _ => Some (mkPolar [] [] [] []);
  polar_to_cart := fun _ => mkCart [] [] [];
  np_deg2rad := fun d => d;
  np_cos := fun _ => 1;
  np_sin := fun _ => 0
|}.

(** Navigation messages that complete the pose at the origin, heading 0. *)
Definition nav : list message :=
  [GlobalPosition 0 0; CompassHdg 0; RelAlt 0].

(** A state with the pose complete at easting 100, northing 200. *)
Definition posed : LoopState :=
  mkState (mkPoses (Some 100) (Some 200) (Some 0) (Some 5)) [] [] [] 0%Z 0%Z.

Definition not_a_ping : message := OculusRawData [].

(** Frames of one and of two pixels. *)
Definition frame1 (x y i : byte) : message := OculusRawData [x; y; i].
Definition frame2 (x y i x' y' i' : byte) : message :=
  OculusRawData [x; y; i; x'; y'; i'].

Definition command_line (res : Q) (cap : option Z) (stride : option Z)
  : CommandLine :=
  mkCommandLine "session.bag" (Some res) None cap stride.

Section LoopFacts.

Context {lib : Libraries}.

Lemma body_sonar_gated args st data :
  none_in_poses (poses st) = true ->
  body args st (OculusRawData data) = (st, Next).
Proof.
  unfold none_in_poses, body.
  destruct (easting (poses st)), (northing (poses st)),
    (heading (poses st)), (depth (poses st)); intros H; try discriminate H;
    reflexivity.
Qed.

Lemma body_sonar_full args st data :
  none_in_poses (poses st) = false ->
  exists e n h d,
    easting (poses st) = Some e /\ northing (poses st) = Some n /\
    heading (poses st) = Some h /\ depth (poses st) = Some d /\
    body args st (OculusRawData data) = sonar_frame args st e n h data.
Proof.
  unfold none_in_poses, body.
  destruct (easting (poses st)) as [e|], (northing (poses st)) as [n|],
    (heading (poses st)) as [h|], (depth (poses st)) as [d|];
    intros H; try discriminate H.
  exists e, n, h, d. repeat split; reflexivity.
Qed.

Lemma body_poses args st m : poses (fst (body args st m)) = track (poses st) m.
Proof.
  destruct m as [lat lon|d|d|data|]; cbn [body track]; try reflexivity.
  - destruct (from_latlon lat lon) as [e n]. reflexivity.
  - destruct (easting (poses st)), (northing (poses st)),
      (heading (poses st)), (depth (poses st)); try reflexivity.
    unfold sonar_frame.
    destruct (skipped _ _); [reflexivity|].
    destruct (over_cap _ _); [reflexivity|].
    destruct (unpack_data_entry data); reflexivity.
Qed.

(** A message that is not a sonar frame touches the pose only. *)
Lemma body_nav args st m :
  (forall data, m <> OculusRawData data) ->
  body args st m = (with_poses st (track (poses st) m), Next).
Proof.
  destruct m as [lat lon|d|d|data|]; intros Hm; cbn [body track];
    try reflexivity.
  - destruct (from_latlon lat lon) as [e n]. reflexivity.
  - exfalso. apply (Hm data). reflexivity.
  - destruct st as [[? ? ? ?] ? ? ? ? ?]. reflexivity.
Qed.

(** The counters move by the same amounts whatever the decoder returns. *)
Lemma sonar_frame_counters args st e n h data :
  let st' := fst (sonar_frame args st e n h data) in
  total_raw_frames st' = (total_raw_frames st + 1)%Z /\
  processed_frames st' =
    (processed_frames st
     + if skipped args (total_raw_frames st + 1) then 0 else 1)%Z.
Proof.
  unfold sonar_frame.
  destruct (skipped _ _); cbn; [split; lia|].
  destruct (over_cap _ _); cbn; [split; lia|].
  destruct (unpack_data_entry data); cbn; split; lia.
Qed.

Lemma skipped_stride args total :
  (1 <= skip_frames args)%Z ->
  skipped args total = negb (total mod skip_frames args =? 0)%Z.
Proof.
  intros HN. unfold skipped.
  destruct (Z.ltb_spec 1 (skip_frames args)) as [H|H]; [reflexivity|].
  assert (skip_frames args = 1%Z) as -> by lia.
  rewrite Z.mod_1_r. reflexivity.
Qed.

Lemma div_succ_stride (t N : Z) :
  (1 <= N)%Z ->
  ((t + 1) / N = t / N + if ((t + 1) mod N =? 0) then 1 else 0)%Z.
Proof.
  intros HN.
  destruct (Z.eqb_spec ((t + 1) mod N) 0) as [H|H].
  - pose proof (Z.div_mod (t + 1) N ltac:(lia)) as E. rewrite H in E.
    assert (((t + 1) / N - 1)%Z = (t / N)%Z) as <-; [|lia].
    apply Z.div_unique with (r := (N - 1)%Z); lia.
  - pose proof (Z.div_mod (t + 1) N ltac:(lia)) as E.
    pose proof (Z.mod_pos_bound (t + 1) N ltac:(lia)) as B.
    assert (((t + 1) / N)%Z = (t / N)%Z) as ->; [|lia].
    apply Z.div_unique with (r := ((t + 1) mod N - 1)%Z); lia.
Qed.

(** Without a cap the loop never breaks, the raw counter counts the eligible
    frames and the processed counter is its quotient by the stride. *)
Lemma uncapped_run args :
  (1 <= skip_frames args)%Z -> max_frames args = None ->
  forall msgs st,
    processed_frames st = (total_raw_frames st / skip_frames args)%Z ->
    let final := for_messages args st msgs in
    snd final = None /\
    total_raw_frames (fst final)
    = (total_raw_frames st + eligible_frames (poses st) msgs)%Z /\
    processed_frames (fst final)
    = (total_raw_frames (fst final) / skip_frames args)%Z.
Proof.
  intros HN Hcap. induction msgs as [|m rest IH]; intros st Hinv; cbn zeta.
  - cbn. repeat split; [lia | exact Hinv].
  - cbn [for_messages eligible_frames].
    destruct m as [lat lon|d|d|data|].
    1-3, 5:
      rewrite body_nav by (intros ? ?; discriminate);
      match goal with
      | |- context [for_messages _ ?s _] =>
          destruct (IH s Hinv) as (I1 & I2 & I3)
      end;
      repeat split;
      [exact I1 | rewrite I2; cbn [with_poses poses total_raw_frames]; lia
       | exact I3].
    destruct (none_in_poses (poses st)) eqn:Hp.
    + rewrite (body_sonar_gated _ _ _ Hp).
      destruct (IH st Hinv) as (I1 & I2 & I3).
      repeat split; [exact I1 | rewrite I2; cbn; lia | exact I3].
    + destruct (body_sonar_full args st data Hp) as (e & n & h & d & _ & _ & _ & _ & Hb).
      rewrite Hb.
      pose proof (sonar_frame_counters args st e n h data) as [Ct Cp].
      pose proof (body_poses args st (OculusRawData data)) as Hpo.
      rewrite Hb in Hpo. cbn [track] in Hpo.
      destruct (sonar_frame args st e n h data) as [st' c] eqn:Hsf.
      cbn [fst] in Ct, Cp, Hpo.
      assert (c = Next) as ->.
      { revert Hsf. unfold sonar_frame, over_cap. rewrite Hcap.
        destruct (skipped _ _); [intros [= _ <-]; reflexivity|].
        destruct (unpack_data_entry data); intros [= _ <-]; reflexivity. }
      assert (processed_frames st'
              = (total_raw_frames st' / skip_frames args)%Z) as Hinv'.
      { rewrite Cp, Ct, skipped_stride by exact HN.
        rewrite div_succ_stride by exact HN. rewrite Hinv.
        destruct ((total_raw_frames st + 1) mod skip_frames args =? 0)%Z;
          reflexivity. }
      destruct (IH st' Hinv') as (I1 & I2 & I3).
      repeat split; [exact I1 | rewrite I2, Ct, Hpo; cbn [track]; lia | exact I3].
Qed.

Lemma eligible_frames_nonneg p msgs : (0 <= eligible_frames p msgs)%Z.
Proof.
  revert p. induction msgs as [|m rest IH]; intros p; cbn; [lia|].
  specialize (IH (track p m)).
  destruct m; try lia. destruct (none_in_poses p); lia.
Qed.

(** C5. With stride N >= 1: a sonar frame that arrives with a complete pose
    always advances the raw-frame counter and is accepted exactly when the
    new count is a multiple of N, whatever happened to earlier frames. Over
    a whole bag read with no cap, the raw counter is the number of eligible
    frames and the number of accepted frames is its quotient by N: all of
    them for N = 1, none when N exceeds the number of eligible frames. *)
Theorem stride_every_nth (args : Args) (msgs : list message) :
  (1 <= skip_frames args)%Z ->
  (forall st data,
      none_in_poses (poses st) = false ->
      let st' := fst (body args st (OculusRawData data)) in
      total_raw_frames st' = (total_raw_frames st + 1)%Z /\
      processed_frames st'
      = (processed_frames st
         + if ((total_raw_frames st + 1) mod skip_frames args =? 0)
           then 1 else 0)%Z) /\
  (max_frames args = None ->
   let final := fst (for_messages args init msgs) in
   total_raw_frames final = eligible_frames poses0 msgs /\
   processed_frames final = (total_raw_frames final / skip_frames args)%Z /\
   (skip_frames args = 1%Z ->
    processed_frames final = total_raw_frames final) /\
   (total_raw_frames final < skip_frames args ->
    processed_frames final = 0)%Z).
Proof.
  intros HN. split.
  - intros st data Hp. cbn zeta.
    destruct (body_sonar_full args st data Hp) as (e & n & h & d & _ & _ & _ & _ & Hb).
    rewrite Hb.
    destruct (sonar_frame_counters args st e n h data) as [Ct Cp].
    split; [exact Ct|]. rewrite Cp, skipped_stride by exact HN.
    destruct ((total_raw_frames st + 1) mod skip_frames args =? 0)%Z;
      reflexivity.
  - intros Hcap. cbn zeta.
    destruct (uncapped_run args HN Hcap msgs init) as (_ & Ht & Hp);
      [reflexivity|].
    cbn [init total_raw_frames poses] in Ht.
    pose proof (eligible_frames_nonneg poses0 msgs) as Hnonneg.
    repeat split.
    + rewrite Ht. lia.
    + exact Hp.
    + intros H1. rewrite Hp, H1. apply Z.div_1_r.
    + intros Hlt. rewrite Hp. apply Z.div_small. lia.
Qed.

(** *** The cap *)

Lemma skipped_uncapped args t : skipped (uncapped args) t = skipped args t.
Proof. reflexivity. Qed.

(** What one iteration can do to the accumulated batches and to the
    processed counter: leave the batches alone, or append one batch for a
    frame that was counted and found within the cap. *)
Lemma body_batches args st m :
  let st' := fst (body args st m) in
  (samples_of st' = samples_of st /\
   (processed_frames st <= processed_frames st')%Z)
  \/
  (length (all_xw st') = S (length (all_xw st)) /\
   processed_frames st' = (processed_frames st + 1)%Z /\
   over_cap args (processed_frames st') = false /\
   snd (body args st m) = Next).
Proof.
  cbn zeta.
  destruct m as [lat lon|d|d|data|].
  1-3, 5:
    rewrite body_nav by (intros ? ?; discriminate); left; split;
    [reflexivity | cbn; lia].
  destruct (none_in_poses (poses st)) eqn:Hp.
  - rewrite (body_sonar_gated _ _ _ Hp). left. split; [reflexivity|cbn; lia].
  - destruct (body_sonar_full args st data Hp)
      as (e & n & h & d & _ & _ & _ & _ & ->).
    unfold sonar_frame.
    destruct (skipped _ _); [left; split; [reflexivity|cbn; lia]|].
    destruct (over_cap _ _) eqn:Hc; [left; split; [reflexivity|cbn; lia]|].
    destruct (unpack_data_entry data);
      [|left; split; [reflexivity|cbn; lia]].
    right. cbn. rewrite length_app. cbn. repeat split; [lia | exact Hc].
Qed.

Lemma body_processed_mono args st m :
  (processed_frames st <= processed_frames (fst (body args st m)))%Z.
Proof. destruct (body_batches args st m) as [[_ H]|(_ & H & _)]; lia. Qed.

Lemma for_messages_processed_mono args msgs :
  forall st,
    (processed_frames st
     <= processed_frames (fst (for_messages args st msgs)))%Z.
Proof.
  induction msgs as [|m rest IH]; intros st; cbn [for_messages]; [cbn; lia|].
  pose proof (body_processed_mono args st m) as Hm.
  destruct (body args st m) as [st' [|]]; cbn [fst] in *.
  - specialize (IH st'). lia.
  - exact Hm.
Qed.

(** Without [--max-frames] no iteration breaks. *)
Lemma body_no_cap args st m :
  max_frames args = None -> snd (body args st m) = Next.
Proof.
  intros Hcap.
  destruct m as [lat lon|d|d|data|].
  1-3, 5: rewrite body_nav by (intros ? ?; discriminate); reflexivity.
  destruct (none_in_poses (poses st)) eqn:Hp.
  - rewrite (body_sonar_gated _ _ _ Hp). reflexivity.
  - destruct (body_sonar_full args st data Hp)
      as (e & n & h & d & _ & _ & _ & _ & ->).
    unfold sonar_frame, over_cap. rewrite Hcap.
    destruct (skipped _ _); [reflexivity|].
    destruct (unpack_data_entry data); reflexivity.
Qed.

Lemma for_messages_no_cap args msgs :
  max_frames args = None ->
  forall st, snd (for_messages args st msgs) = None.
Proof.
  intros Hcap. induction msgs as [|m rest IH]; intros st; cbn [for_messages];
    [reflexivity|].
  pose proof (body_no_cap args st m Hcap) as Hb.
  destruct (body args st m) as [st' c]. cbn [snd] in Hb. subst c. apply IH.
Qed.

(** A loop that did not break continues with the following messages. *)
Lemma for_messages_app args pre post :
  forall st,
    snd (for_messages args st pre) = None ->
    for_messages args st (pre ++ post)
    = for_messages args (fst (for_messages args st pre)) post.
Proof.
  induction pre as [|m rest IH]; intros st; cbn [for_messages app fst];
    [reflexivity|].
  destruct (body args st m) as [st' [|]]; [apply IH | discriminate].
Qed.

(** The cap changes one iteration only by the break. *)
Lemma body_capped_agrees args c st m :
  max_frames args = Some c ->
  (processed_frames (fst (body (uncapped args) st m)) <= c)%Z ->
  body args st m = body (uncapped args) st m.
Proof.
  intros Hcap.
  destruct m as [lat lon|d|d|data|].
  1-3, 5: rewrite !body_nav by (intros ? ?; discriminate); reflexivity.
  destruct (none_in_poses (poses st)) eqn:Hp.
  - rewrite !(body_sonar_gated _ _ _ Hp). reflexivity.
  - destruct (body_sonar_full args st data Hp)
      as (e & n & h & d & He & Hn & Hh & Hd & ->).
    unfold body. rewrite He, Hn, Hh, Hd.
    unfold sonar_frame. rewrite skipped_uncapped.
    destruct (skipped args _); [reflexivity|].
    unfold over_cap. rewrite Hcap. cbn [uncapped max_frames].
    destruct (Z.ltb_spec c (processed_frames st + 1)) as [Hlt|Hle];
      [|reflexivity].
    destruct (unpack_data_entry data); cbn; lia.
Qed.

Lemma for_messages_capped_agrees args c msgs :
  max_frames args = Some c ->
  forall st,
    (processed_frames (fst (for_messages (uncapped args) st msgs)) <= c)%Z ->
    for_messages args st msgs = for_messages (uncapped args) st msgs.
Proof.
  intros Hcap. induction msgs as [|m rest IH]; intros st Hle;
    cbn [for_messages] in *; [reflexivity|].
  pose proof (body_no_cap (uncapped args) st m eq_refl) as Hn.
  pose proof (body_capped_agrees args c st m Hcap) as Hb.
  destruct (body (uncapped args) st m) as [st' k] eqn:Hu.
  cbn [snd] in Hn. subst k. cbn [fst] in Hb.
  rewrite Hb.
  - apply IH. exact Hle.
  - pose proof (for_messages_processed_mono (uncapped args) rest st'). lia.
Qed.

(** Once the processed counter has reached the cap, nothing more is added. *)
Lemma for_messages_at_cap args c msgs :
  max_frames args = Some c ->
  forall st,
    (c <= processed_frames st)%Z ->
    samples_of (fst (for_messages args st msgs)) = samples_of st.
Proof.
  intros Hcap. induction msgs as [|m rest IH]; intros st Hle;
    cbn [for_messages]; [reflexivity|].
  destruct (body_batches args st m) as [[Hs Hm]|(_ & Hp & Hc & _)].
  - destruct (body args st m) as [st' [|]]; cbn [fst] in *; [|exact Hs].
    rewrite IH by lia. exact Hs.
  - exfalso. unfold over_cap in Hc. rewrite Hcap in Hc.
    apply Z.ltb_ge in Hc. lia.
Qed.

(** Every batch was counted as a processed frame. *)
Lemma for_messages_batches_le_processed args msgs :
  forall st,
    (Z.of_nat (length (all_xw st)) <= processed_frames st)%Z ->
    (Z.of_nat (length (all_xw (fst (for_messages args st msgs))))
     <= processed_frames (fst (for_messages args st msgs)))%Z.
Proof.
  induction msgs as [|m rest IH]; intros st Hle; cbn [for_messages];
    [exact Hle|].
  assert (Z.of_nat (length (all_xw (fst (body args st m))))
          <= processed_frames (fst (body args st m)))%Z as Hstep.
  { destruct (body_batches args st m) as [[Hs Hm]|(Hl & Hp & _)].
    - unfold samples_of in Hs. injection Hs as -> _ _. lia.
    - rewrite Hl, Hp. lia. }
  destruct (body args st m) as [st' [|]]; cbn [fst] in *;
    [apply IH; exact Hstep | exact Hstep].
Qed.

(** The number of batches never exceeds the cap. *)
Lemma for_messages_batches_le_cap args c msgs :
  max_frames args = Some c ->
  forall st,
    (Z.of_nat (length (all_xw st)) <= processed_frames st)%Z ->
    (Z.of_nat (length (all_xw st)) <= Z.max 0 c)%Z ->
    (Z.of_nat (length (all_xw (fst (for_messages args st msgs))))
     <= Z.max 0 c)%Z.
Proof.
  intros Hcap. induction msgs as [|m rest IH]; intros st Hlp Hle;
    cbn [for_messages]; [exact Hle|].
  assert ((Z.of_nat (length (all_xw (fst (body args st m))))
           <= processed_frames (fst (body args st m)))%Z /\
          (Z.of_nat (length (all_xw (fst (body args st m))))
           <= Z.max 0 c)%Z) as [Hstep1 Hstep2].
  { destruct (body_batches args st m) as [[Hs Hm]|(Hl & Hp & Hc & _)].
    - unfold samples_of in Hs. injection Hs as -> _ _. lia.
    - unfold over_cap in Hc. rewrite Hcap in Hc. apply Z.ltb_ge in Hc.
      rewrite Hl. lia. }
  destruct (body args st m) as [st' [|]]; cbn [fst] in *;
    [apply IH; assumption | exact Hstep2].
Qed.

(** C6. With [--max-frames c]: an accepted frame that takes the processed
    count above [c] breaks the loop, so the remaining messages are never read
    and nothing is added for that frame; the samples of the whole run are
    exactly those gathered up to the point where [c] frames had been counted;
    and at most [c] batches are ever accumulated. *)
Theorem cap_stops_stream (args : Args) (c : Z) :
  max_frames args = Some c ->
  (forall st data rest,
      none_in_poses (poses st) = false ->
      skipped args (total_raw_frames st + 1) = false ->
      (c < processed_frames st + 1)%Z ->
      exists st',
        for_messages args st (OculusRawData data :: rest) = (st', Some rest)
        /\ samples_of st' = samples_of st) /\
  (forall pre post,
      processed_frames (fst (for_messages (uncapped args) init pre)) = c ->
      samples_of (fst (for_messages args init (pre ++ post)))
      = samples_of (fst (for_messages (uncapped args) init pre))) /\
  (forall msgs,
      (Z.of_nat (length (all_xw (fst (for_messages args init msgs))))
       <= Z.max 0 c)%Z).
Proof.
  intros Hcap. repeat split.
  - intros st data rest Hp Hs Hc.
    destruct (body_sonar_full args st data Hp)
      as (e & n & h & d & _ & _ & _ & _ & Hb).
    cbn [for_messages]. rewrite Hb. unfold sonar_frame.
    rewrite Hs. unfold over_cap. rewrite Hcap.
    apply Z.ltb_lt in Hc. rewrite Hc.
    eexists. split; reflexivity.
  - intros pre post Hc.
    pose proof (for_messages_capped_agrees args c pre Hcap init) as Hagree.
    rewrite for_messages_app.
    + rewrite Hagree by lia.
      apply (for_messages_at_cap args c post Hcap). lia.
    + rewrite Hagree by lia. apply for_messages_no_cap. reflexivity.
  - intros msgs.
    apply (for_messages_batches_le_cap args c msgs Hcap); cbn; lia.
Qed.

(** *** Decode failures *)

(** C7 (as amended). An accepted frame that the decoder rejects adds no
    sample and lets the loop go on, but it has already been counted: the
    processed-frame count that the cap is tested against is one higher. *)
Theorem decode_failure_takes_a_slot (args : Args) (st : LoopState)
        (data : list byte) :
  none_in_poses (poses st) = false ->
  skipped args (total_raw_frames st + 1) = false ->
  over_cap args (processed_frames st + 1) = false ->
  unpack_data_entry data = None ->
  let r := body args st (OculusRawData data) in
  snd r = Next /\
  samples_of (fst r) = samples_of st /\
  poses (fst r) = poses st /\
  total_raw_frames (fst r) = (total_raw_frames st + 1)%Z /\
  processed_frames (fst r) = (processed_frames st + 1)%Z.
Proof.
  intros Hp Hs Hc Hd. cbn zeta.
  destruct (body_sonar_full args st data Hp)
    as (e & n & h & d & _ & _ & _ & _ & ->).
  unfold sonar_frame. rewrite Hs, Hc, Hd. cbn. repeat split.
Qed.

(** *** The world transform *)

Lemma world_x_length h e xs ys :
  length xs = length ys -> length (world_x h e xs ys) = length xs.
Proof.
  unfold world_x. rewrite length_map.
  revert ys. induction xs as [|x xs IH]; intros [|y ys] H; cbn in *;
    try discriminate; [reflexivity|].
  f_equal. apply IH. lia.
Qed.

Lemma world_y_length h n xs ys :
  length xs = length ys -> length (world_y h n xs ys) = length xs.
Proof.
  unfold world_y. rewrite length_map.
  revert ys. induction xs as [|x xs IH]; intros [|y ys] H; cbn in *;
    try discriminate; [reflexivity|].
  f_equal. apply IH. lia.
Qed.

Lemma world_x_nth h e xs :
  forall ys k,
    length xs = length ys -> (k < length xs)%nat ->
    nth k (world_x h e xs ys) 0
    = nth k xs 0 * np_cos (np_deg2rad h) - nth k ys 0 * np_sin (np_deg2rad h)
      + e.
Proof.
  unfold world_x.
  induction xs as [|x xs IH]; intros [|y ys] k Hlen Hk; cbn in *;
    try discriminate; try lia.
  destruct k as [|k]; [reflexivity|]. apply IH; lia.
Qed.

Lemma world_y_nth h n xs :
  forall ys k,
    length xs = length ys -> (k < length xs)%nat ->
    nth k (world_y h n xs ys) 0
    = nth k xs 0 * np_sin (np_deg2rad h) + nth k ys 0 * np_cos (np_deg2rad h)
      + n.
Proof.
  unfold world_y.
  induction xs as [|x xs IH]; intros [|y ys] k Hlen Hk; cbn in *;
    try discriminate; try lia.
  destruct k as [|k]; [reflexivity|]. apply IH; lia.
Qed.

(** C1. A frame that passes the gates and decodes appends one batch per
    list; pixel k of the batch is the local pixel k rotated by the heading
    (converted to radians) and translated by (easting, northing), with its
    intensity unchanged. With heading 0, where the library cosine is 1 and
    the library sine is 0, the world coordinates are the local ones plus the
    translation. *)
Theorem world_transform (args : Args) (st : LoopState) (data : list byte)
        (e n h d : Q) (polar : PolarFrame) :
  easting (poses st) = Some e -> northing (poses st) = Some n ->
  heading (poses st) = Some h -> depth (poses st) = Some d ->
  skipped args (total_raw_frames st + 1) = false ->
  over_cap args (processed_frames st + 1) = false ->
  unpack_data_entry data = Some polar ->
  let cart := polar_to_cart polar in
  let xs := ravel (x_table cart) in
  let ys := ravel (y_table cart) in
  length xs = length ys ->
  let theta := np_deg2rad h in
  exists X Y,
    samples_of (fst (body args st (OculusRawData data)))
    = (all_xw st ++ [X], all_yw st ++ [Y],
       all_int st ++ [ravel (cart_image cart)]) /\
    length X = length xs /\ length Y = length xs /\
    (forall k, (k < length xs)%nat ->
       nth k X 0 = nth k xs 0 * np_cos theta - nth k ys 0 * np_sin theta + e /\
       nth k Y 0 = nth k xs 0 * np_sin theta + nth k ys 0 * np_cos theta + n) /\
    (h = 0 -> np_cos (np_deg2rad 0) == 1 -> np_sin (np_deg2rad 0) == 0 ->
     forall k, (k < length xs)%nat ->
       nth k X 0 == nth k xs 0 + e /\ nth k Y 0 == nth k ys 0 + n).
Proof.
  intros He Hn Hh Hd Hs Hc Hu cart xs ys Hlen theta.
  exists (world_x h e xs ys), (world_y h n xs ys).
  split.
  { unfold body. rewrite He, Hn, Hh, Hd. unfold sonar_frame.
    rewrite Hs, Hc, Hu. reflexivity. }
  split; [apply world_x_length; exact Hlen|].
  split; [apply world_y_length; exact Hlen|].
  split.
  - intros k Hk. split; [apply world_x_nth | apply world_y_nth]; assumption.
  - intros H0 Hcos Hsin k Hk. subst h.
    rewrite world_x_nth, world_y_nth by assumption.
    rewrite Hcos, Hsin. split; ring.
Qed.

End LoopFacts.

(** ** Gridding *)

(** *** Minimum and maximum of an array *)

Lemma Qmin_choice a b : Qmin a b = a \/ Qmin a b = b.
Proof.
  unfold Qmin, GenericMinMax.gmin. destruct (a ?= b); auto.
Qed.

Lemma Qmax_choice a b : Qmax a b = a \/ Qmax a b = b.
Proof.
  unfold Qmax, GenericMinMax.gmax. destruct (a ?= b); auto.
Qed.

Lemma fold_min_spec r : forall x, minimum_of (fold_left Qmin r x) (x :: r).
Proof.
  induction r as [|a r IH]; intros x; cbn [fold_left].
  - split; [left; reflexivity|]. intros y [<-|[]]. apply Qle_refl.
  - destruct (IH (Qmin x a)) as [Hin Hle]. split.
    + destruct Hin as [Hin|Hin]; [|right; right; exact Hin].
      destruct (Qmin_choice x a) as [E|E]; [left | right; left];
        (transitivity (Qmin x a); [symmetry; exact E | exact Hin]).
    + assert (fold_left Qmin r (Qmin x a) <= Qmin x a) as H0
          by (apply Hle; left; reflexivity).
      intros y [<-|[<-|Hy]].
      * eapply Qle_trans; [exact H0 | apply Q.le_min_l].
      * eapply Qle_trans; [exact H0 | apply Q.le_min_r].
      * apply Hle. right. exact Hy.
Qed.

Lemma fold_max_spec r : forall x, maximum_of (fold_left Qmax r x) (x :: r).
Proof.
  induction r as [|a r IH]; intros x; cbn [fold_left].
  - split; [left; reflexivity|]. intros y [<-|[]]. apply Qle_refl.
  - destruct (IH (Qmax x a)) as [Hin Hle]. split.
    + destruct Hin as [Hin|Hin]; [|right; right; exact Hin].
      destruct (Qmax_choice x a) as [E|E]; [left | right; left];
        (transitivity (Qmax x a); [symmetry; exact E | exact Hin]).
    + assert (Qmax x a <= fold_left Qmax r (Qmax x a)) as H0
          by (apply Hle; left; reflexivity).
      intros y [<-|[<-|Hy]].
      * eapply Qle_trans; [apply Q.le_max_l | exact H0].
      * eapply Qle_trans; [apply Q.le_max_r | exact H0].
      * apply Hle. right. exact Hy.
Qed.

Lemma array_min_spec l m : array_min l = Some m -> minimum_of m l.
Proof.
  destruct l as [|x r]; cbn; [discriminate|]. intros [= <-].
  apply fold_min_spec.
Qed.

Lemma array_max_spec l m : array_max l = Some m -> maximum_of m l.
Proof.
  destruct l as [|x r]; cbn; [discriminate|]. intros [= <-].
  apply fold_max_spec.
Qed.

Lemma array_min_some l : l <> [] -> exists m, array_min l = Some m.
Proof. destruct l; [congruence|]. intros _. eexists. reflexivity. Qed.

Lemma array_max_some l : l <> [] -> exists m, array_max l = Some m.
Proof. destruct l; [congruence|]. intros _. eexists. reflexivity. Qed.

Lemma min_le_max l lo hi : minimum_of lo l -> maximum_of hi l -> lo <= hi.
Proof. intros [Hin _] [_ Hle]. apply Hle. exact Hin. Qed.

(** *** Edges *)

Lemma nth_map_seq {A : Type} (f : nat -> A) (d : A) n i :
  (i < n)%nat -> nth i (map f (seq 0 n)) d = f i.
Proof.
  intros Hi. rewrite (nth_indep _ d (f 0%nat)) by (rewrite length_map, length_seq; exact Hi).
  rewrite map_nth. rewrite seq_nth by exact Hi. reflexivity.
Qed.

Lemma linspace_length a b n : length (linspace a b n) = S n.
Proof.
  unfold linspace. rewrite length_app, length_map, length_seq. cbn. lia.
Qed.

Lemma linspace_last a b n : last (linspace a b n) 0 = b.
Proof. unfold linspace. apply last_last. Qed.

Lemma linspace_nth a b n k :
  (1 <= n)%nat -> (k <= n)%nat ->
  nth k (linspace a b n) 0
  == inject_Z (Z.of_nat k) * ((b - a) / inject_Z (Z.of_nat n)) + a.
Proof.
  intros Hn Hk. unfold linspace.
  destruct (Nat.eq_dec k n) as [->|Hne].
  - rewrite app_nth2 by (rewrite length_map, length_seq; lia).
    rewrite length_map, length_seq, Nat.sub_diag. cbn [nth].
    assert (~ inject_Z (Z.of_nat n) == 0) as Hnz.
    { intros H. apply (proj1 (inject_Z_injective (Z.of_nat n) 0)) in H. lia. }
    field. exact Hnz.
  - rewrite app_nth1 by (rewrite length_map, length_seq; lia).
    rewrite nth_map_seq by lia. reflexivity.
Qed.

Lemma linspace_first a b n : (1 <= n)%nat -> nth 0 (linspace a b n) 0 == a.
Proof.
  intros Hn. rewrite linspace_nth by lia. cbn. ring.
Qed.

Lemma linspace_end a b n : nth n (linspace a b n) 0 = b.
Proof.
  unfold linspace. rewrite app_nth2 by (rewrite length_map, length_seq; lia).
  rewrite length_map, length_seq, Nat.sub_diag. reflexivity.
Qed.

Lemma inject_nat_pos n : (1 <= n)%nat -> 0 < inject_Z (Z.of_nat n).
Proof.
  intros Hn. change 0 with (inject_Z 0). rewrite <- Zlt_Qlt. lia.
Qed.

Lemma step_nonneg a b n :
  (1 <= n)%nat -> a <= b -> 0 <= (b - a) / inject_Z (Z.of_nat n).
Proof.
  intros Hn Hab. apply Qle_shift_div_l; [apply inject_nat_pos; exact Hn|].
  lra.
Qed.

Lemma linspace_ascending a b n :
  (1 <= n)%nat -> a <= b -> ascending (linspace a b n).
Proof.
  intros Hn Hab i j Hij Hj. rewrite linspace_length in Hj.
  rewrite !linspace_nth by lia.
  pose proof (step_nonneg a b n Hn Hab) as Hs.
  assert (inject_Z (Z.of_nat i) <= inject_Z (Z.of_nat j)) as Hle
      by (rewrite <- Zle_Qle; lia).
  apply Qplus_le_l. apply Qmult_le_compat_r; assumption.
Qed.

(** The width of cell [i] of an axis with [n] bins over [[a, b]]. *)
Lemma linspace_width a b n i :
  (i < n)%nat ->
  nth (S i) (linspace a b n) 0 - nth i (linspace a b n) 0
  == (b - a) / inject_Z (Z.of_nat n).
Proof.
  intros Hi. rewrite !linspace_nth by lia.
  rewrite Nat2Z.inj_succ. unfold Z.succ. rewrite inject_Z_plus.
  assert (~ inject_Z (Z.of_nat n) == 0) as Hnz.
  { intros H. apply (proj1 (inject_Z_injective (Z.of_nat n) 0)) in H. lia. }
  field. exact Hnz.
Qed.

(** *** Placing a coordinate on an axis *)

Lemma ascending_tail a l : ascending (a :: l) -> ascending l.
Proof. intros H i j Hij Hj. apply (H (S i) (S j)); cbn; lia. Qed.

Lemma ascending_head a l k :
  ascending (a :: l) -> (k < length l)%nat -> a <= nth k l 0.
Proof. intros H Hk. apply (H 0%nat (S k)); cbn; lia. Qed.

Lemma filter_none {A : Type} (f : A -> bool) l :
  (forall e, In e l -> f e = false) -> filter f l = [].
Proof.
  induction l as [|a l IH]; intros H; cbn; [reflexivity|].
  rewrite (H a) by (left; reflexivity). apply IH.
  intros e He. apply H. right. exact He.
Qed.

(** On ascending edges the edges not above [x] form a prefix. *)
Lemma searchsorted_prefix l x :
  ascending l ->
  let c := length (filter (fun e => Qle_bool e x) l) in
  (c <= length l)%nat /\
  (forall k, (k < c)%nat -> nth k l 0 <= x) /\
  (forall k, (c <= k)%nat -> (k < length l)%nat -> x < nth k l 0).
Proof.
  induction l as [|a l IH]; intros Hasc; cbn zeta.
  - cbn. repeat split; intros; lia.
  - cbn [filter]. destruct (Qle_bool a x) eqn:Ha.
    + apply Qle_bool_iff in Ha.
      destruct (IH (ascending_tail _ _ Hasc)) as (I1 & I2 & I3).
      cbn [length]. repeat split.
      * lia.
      * intros [|k] Hk; cbn; [exact Ha | apply I2; lia].
      * intros [|k] Hk1 Hk2; [lia|]. cbn. apply I3; cbn in Hk2; lia.
    + assert (x < a) as Hax.
      { apply Qnot_le_lt. intros H. apply Qle_bool_iff in H. congruence. }
      assert (forall k, (k < length l)%nat -> x < nth k l 0) as Hall.
      { intros k Hk. eapply Qlt_le_trans; [exact Hax|].
        apply ascending_head; assumption. }
      rewrite filter_none.
      * cbn [length]. repeat split; [lia | intros; lia |].
        intros [|k] _ Hk; cbn; [exact Hax | apply Hall; cbn in Hk; lia].
      * intros e He. destruct (In_nth _ _ 0 He) as (k & Hk & <-).
        destruct (Qle_bool (nth k l 0) x) eqn:Hb; [|reflexivity].
        apply Qle_bool_iff in Hb. specialize (Hall k Hk).
        exfalso. apply (Qlt_not_le _ _ Hall Hb).
Qed.

(** A coordinate inside [[a, b]] gets the number of a real cell, and the
    edges of that cell bracket it: half-open, except the last cell, which
    also takes [b]. *)
Lemma bin_number_linspace a b n x :
  (1 <= n)%nat -> a < b -> a <= x -> x <= b ->
  exists i,
    (i < n)%nat /\
    bin_number (linspace a b n) x = (Z.of_nat i + 1)%Z /\
    nth i (linspace a b n) 0 <= x /\
    x <= nth (S i) (linspace a b n) 0 /\
    (x < nth (S i) (linspace a b n) 0 \/ S i = n).
Proof.
  intros Hn Hab Hax Hxb.
  pose proof (linspace_ascending a b n Hn (Qlt_le_weak _ _ Hab)) as Hasc.
  destruct (searchsorted_prefix (linspace a b n) x Hasc) as (P1 & P2 & P3).
  rewrite linspace_length in P1, P3.
  unfold bin_number, searchsorted_right. rewrite linspace_last.
  set (c := length (filter (fun e => Qle_bool e x) (linspace a b n))) in *.
  assert (1 <= c)%nat as Hc1.
  { destruct c as [|c]; [|lia]. exfalso.
    assert (x < nth 0 (linspace a b n) 0) as H by (apply P3; lia).
    rewrite linspace_first in H by exact Hn. apply (Qlt_not_le _ _ H Hax). }
  destruct (Qeq_bool x b) eqn:Hxeq.
  - apply Qeq_bool_iff in Hxeq.
    assert (c = S n) as Hc.
    { destruct (Nat.eq_dec c (S n)) as [E|E]; [exact E|]. exfalso.
      assert (x < nth n (linspace a b n) 0) as H by (apply P3; lia).
      rewrite linspace_end in H. rewrite Hxeq in H.
      apply (Qlt_irrefl _ H). }
    exists (n - 1)%nat. replace (S (n - 1)) with n by lia.
    repeat split.
    + lia.
    + lia.
    + apply P2. lia.
    + rewrite linspace_end. exact Hxb.
    + right. reflexivity.
  - apply Qeq_bool_neq in Hxeq.
    assert (c <= n)%nat as Hc.
    { destruct (Nat.eq_dec c (S n)) as [E|E]; [|lia]. exfalso.
      assert (nth n (linspace a b n) 0 <= x) as H by (apply P2; lia).
      rewrite linspace_end in H. apply Hxeq. apply Qle_antisym; assumption. }
    exists (c - 1)%nat. replace (S (c - 1)) with c by lia.
    assert (x < nth c (linspace a b n) 0) as Hlt by (apply P3; lia).
    repeat split.
    + lia.
    + lia.
    + apply P2. lia.
    + apply Qlt_le_weak. exact Hlt.
    + left. exact Hlt.
Qed.

(** *** Cells of the histogram *)

Lemma length_map2 {A B C : Type} (f : A -> B -> C) xs :
  forall ys, length xs = length ys -> length (map2 f xs ys) = length xs.
Proof.
  induction xs as [|x xs IH]; intros [|y ys] H; cbn in *; try discriminate;
    [reflexivity|].
  f_equal. apply IH. lia.
Qed.

Lemma nth_map2 {A B C : Type} (f : A -> B -> C) (d : C) (dx : A) (dy : B) xs :
  forall ys i,
    (i < length xs)%nat -> (i < length ys)%nat ->
    nth i (map2 f xs ys) d = f (nth i xs dx) (nth i ys dy).
Proof.
  induction xs as [|x xs IH]; intros [|y ys] i Hx Hy; cbn in *; try lia.
  destruct i as [|i]; [reflexivity|]. apply IH; lia.
Qed.

Lemma core_hist_length xe ye nx ny l : length (core_hist xe ye nx ny l) = nx.
Proof. unfold core_hist. rewrite length_map, length_seq. reflexivity. Qed.

Lemma core_hist_row xe ye nx ny l i :
  (i < nx)%nat -> length (nth i (core_hist xe ye nx ny l) []) = ny.
Proof.
  intros Hi. unfold core_hist. rewrite nth_map_seq by exact Hi.
  rewrite length_map, length_seq. reflexivity.
Qed.

Lemma cell_core_hist xe ye nx ny l i j :
  (i < nx)%nat -> (j < ny)%nat ->
  cell (core_hist xe ye nx ny l) i j = Qsum (map snd (samples_in xe ye i j l)).
Proof.
  intros Hi Hj. unfold cell, core_hist.
  rewrite nth_map_seq by exact Hi. rewrite nth_map_seq by exact Hj.
  reflexivity.
Qed.

Lemma divide_masked_length s c :
  length s = length c -> length (divide_masked s c) = length s.
Proof. apply length_map2. Qed.

Lemma divide_masked_row s c i :
  (i < length s)%nat -> (i < length c)%nat ->
  length (nth i s []) = length (nth i c []) ->
  length (nth i (divide_masked s c) []) = length (nth i s []).
Proof.
  intros Hs Hc Hrow. unfold divide_masked.
  rewrite (nth_map2 _ [] [] []) by assumption.
  apply length_map2. exact Hrow.
Qed.

Lemma cell_divide_masked s c i j :
  (i < length s)%nat -> (i < length c)%nat ->
  (j < length (nth i s []))%nat -> (j < length (nth i c []))%nat ->
  cell (divide_masked s c) i j
  = if Qlt_bool 0 (cell c i j) then cell s i j / cell c i j else cell s i j.
Proof.
  intros Hs Hc Hjs Hjc. unfold cell, divide_masked.
  rewrite (nth_map2 _ [] [] []) by assumption.
  rewrite (nth_map2 _ 0 0 0) by assumption. reflexivity.
Qed.

(** With unit weights the sum over a cell is the number of samples in it. *)
Lemma unit_weights_count (P : Q * Q -> bool) pts :
  forall (xs w : list Q),
    length xs = length pts -> length w = length pts ->
    Qsum (map snd (filter (fun s => P (fst s))
                          (combine pts (map (fun _ => 1) xs))))
    == inject_Z (Z.of_nat (length (filter (fun s => P (fst s))
                                          (combine pts w)))).
Proof.
  induction pts as [|p pts IH]; intros [|x xs] [|w0 w] Hx Hw; cbn in *;
    try discriminate; try reflexivity.
  destruct (P p); cbn [map snd Qsum fold_right length].
  - rewrite Nat2Z.inj_succ. unfold Z.succ. rewrite inject_Z_plus.
    fold (Qsum (map snd (filter (fun s => P (fst s))
                                (combine pts (map (fun _ => 1) xs))))).
    rewrite (IH xs w) by lia. ring.
  - apply IH; lia.
Qed.

Lemma Qlt_bool_iff x y : Qlt_bool x y = true <-> x < y.
Proof.
  unfold Qlt_bool. rewrite negb_true_iff. split.
  - intros H. apply Qnot_le_lt. intros Hle. apply Qle_bool_iff in Hle.
    congruence.
  - intros H. destruct (Qle_bool y x) eqn:E; [|reflexivity].
    apply Qle_bool_iff in E. exfalso. apply (Qlt_not_le _ _ H E).
Qed.

Lemma histogram2d_ok x y nx ny x0 x1 y0 y1 weights :
  length x = length y -> (1 <= nx)%Z -> (1 <= ny)%Z -> x0 < x1 -> y0 < y1 ->
  (forall w, weights = Some w -> length w = length x) ->
  histogram2d x y (nx, ny) ((x0, x1), (y0, y1)) weights
  = inr (core_hist (linspace x0 x1 (Z.to_nat nx)) (linspace y0 y1 (Z.to_nat ny))
                   (Z.to_nat nx) (Z.to_nat ny)
                   (combine (combine x y)
                            (match weights with
                             | Some w => w
                             | None => map (fun _ => 1) x
                             end)),
         linspace x0 x1 (Z.to_nat nx), linspace y0 y1 (Z.to_nat ny)).
Proof.
  intros Hlen Hnx Hny Hx Hy Hw. unfold histogram2d, get_outer_edges.
  rewrite <- Hlen, Nat.eqb_refl. cbn [negb].
  assert (forall p q, p < q -> Qle_bool p q = true /\ Qeq_bool p q = false)
    as Hlt.
  { intros p q Hpq. split.
    - apply Qle_bool_iff, Qlt_le_weak, Hpq.
    - destruct (Qeq_bool p q) eqn:E; [|reflexivity].
      apply Qeq_bool_iff in E. rewrite E in Hpq.
      exfalso. apply (Qlt_irrefl _ Hpq). }
  destruct (Hlt _ _ Hx) as [-> ->]. destruct (Hlt _ _ Hy) as [-> ->].
  destruct (Z.ltb_spec nx 1) as [H|_]; [lia|].
  destruct (Z.ltb_spec ny 1) as [H|_]; [lia|].
  assert (length (match weights with
                  | Some w => w
                  | None => map (fun _ => 1) x
                  end) = length x) as Hwl.
  { destruct weights as [w|]; [apply Hw; reflexivity | apply length_map]. }
  rewrite Hwl, Nat.eqb_refl. reflexivity.
Qed.

(** *** The bin count *)

Lemma round64_comp q1 q2 : q1 == q2 -> round64 q1 = round64 q2.
Proof.
  intros H. unfold round64. rewrite (Qred_complete _ _ H). reflexivity.
Qed.

Lemma round_half_even_nonneg n d :
  (0 <= n)%Z -> (0 < d)%Z -> (0 <= round_half_even n d)%Z.
Proof.
  intros Hn Hd. unfold round_half_even.
  pose proof (Z.div_pos n d Hn Hd).
  destruct (2 * (n mod d) ?= d)%Z; [destruct (Z.even (n / d))| |]; lia.
Qed.

Lemma scaled_nonneg n d e :
  (0 <= n)%Z -> (0 < d)%Z ->
  (0 <= fst (scaled n d e))%Z /\ (0 < snd (scaled n d e))%Z.
Proof.
  intros Hn Hd. unfold scaled. destruct (Z.leb_spec 0 e) as [He|He]; cbn.
  - pose proof (Z.pow_pos_nonneg 2 e ltac:(lia) He). split; nia.
  - pose proof (Z.pow_pos_nonneg 2 (- e) ltac:(lia) ltac:(lia)). split; nia.
Qed.

(** Rounding keeps the sign: a positive float comes from a positive
    number, a negative float from a negative one. *)
Lemma round64_sign q v :
  round64 q = Finite v -> (0 < v -> 0 < q) /\ (v < 0 -> q < 0).
Proof.
  unfold round64. pose proof (Qred_correct q) as Hr.
  set (r := Qred q) in *.
  destruct (Z.eqb_spec (Z.abs (Qnum r)) 0) as [Hz|Hz].
  { intros [= <-]. split; intros H; exfalso; apply (Qlt_irrefl _ H). }
  set (p := Z.max (floor_log2 (Z.abs (Qnum r)) (Z.pos (Qden r)) - 52) (-1074)).
  destruct (scaled_nonneg (Z.abs (Qnum r)) (Z.pos (Qden r)) p
                          ltac:(lia) ltac:(lia)) as [Sn Sd].
  destruct (scaled (Z.abs (Qnum r)) (Z.pos (Qden r)) p) as [n' d'].
  cbn [fst snd] in Sn, Sd.
  pose proof (round_half_even_nonneg n' d' Sn Sd) as Hm.
  set (m := round_half_even n' d') in *.
  assert (0 <= Qred (inject_Z m * 2 ^ p)) as Hmag.
  { rewrite Qred_correct. apply Qmult_le_0_compat.
    - change 0 with (inject_Z 0). rewrite <- Zle_Qle. exact Hm.
    - apply Qpower_0_le. discriminate. }
  set (mag := Qred (inject_Z m * 2 ^ p)) in *. clearbody mag.
  destruct (Qle_bool (2 ^ 1024) mag); [discriminate|].
  destruct (Z.ltb_spec (Qnum r) 0) as [Hneg|Hpos]; intros [= <-].
  - split; [intros H; exfalso; lra|]. intros _. rewrite <- Hr.
    unfold Qlt. cbn. lia.
  - split; [|intros H; exfalso; lra]. intros _. rewrite <- Hr.
    unfold Qlt. cbn. lia.
Qed.

Lemma div_nonpos extent res : 0 <= extent -> res < 0 -> extent / res <= 0.
Proof.
  intros He Hr.
  assert (extent / res == - (extent / - res)) as E by (field; lra).
  assert (0 <= extent / - res) as H0 by (apply Qle_shift_div_l; lra).
  rewrite E. lra.
Qed.

(** At least one bin needs a positive resolution and a positive extent. *)
Lemma int_ceil_div_pos_inv hi lo res n :
  int_ceil_div hi lo res = inr n -> (1 <= n)%Z -> lo <= hi ->
  0 < res /\ lo < hi.
Proof.
  unfold int_ceil_div, fsub, fdiv. intros H Hn Hle.
  destruct (round64 (hi - lo)) as [x| |] eqn:Hx; try discriminate H.
  destruct (round64_sign _ _ Hx) as [Xpos Xneg].
  destruct (Qeq_bool res 0) eqn:Hz;
    [destruct (Qeq_bool x 0); discriminate H|].
  apply Qeq_bool_neq in Hz.
  destruct (round64 (x / res)) as [v| |] eqn:Hv; try discriminate H.
  injection H as <-.
  destruct (round64_sign _ _ Hv) as [Vpos _].
  assert (0 < v) as Hvpos.
  { eapply Qle_lt_trans; [|apply Qceiling_lt].
    change 0 with (inject_Z 0). rewrite <- Zle_Qle. lia. }
  specialize (Vpos Hvpos).
  assert (0 <= x) as Hx0.
  { destruct (Qlt_le_dec x 0) as [H|H]; [|exact H].
    specialize (Xneg H). exfalso. lra. }
  assert (0 < res) as Hres.
  { destruct (Qlt_le_dec 0 res) as [H|H]; [exact H|]. exfalso.
    assert (res < 0) as Hneg
        by (apply Qnot_le_lt; intros H'; apply Hz; apply Qle_antisym;
            assumption).
    pose proof (div_nonpos x res Hx0 Hneg). lra. }
  split; [exact Hres|].
  assert (0 < x) as Hxpos.
  { destruct (Qlt_le_dec 0 x) as [H|H]; [exact H|]. exfalso.
    assert (x == 0) as E by (apply Qle_antisym; assumption).
    rewrite E in Vpos. unfold Qdiv in Vpos. rewrite Qmult_0_l in Vpos.
    apply (Qlt_irrefl _ Vpos). }
  specialize (Xpos Hxpos). lra.
Qed.

(** An extent of exactly 0 gives no bin. *)
Lemma int_ceil_div_zero_extent hi lo res :
  hi == lo -> ~ res == 0 -> int_ceil_div hi lo res = inr 0%Z.
Proof.
  intros He Hz. unfold int_ceil_div, fsub, fdiv.
  assert (hi - lo == 0) as E by (rewrite He; ring).
  rewrite (round64_comp _ _ E). change (round64 0) with (Finite 0).
  destruct (Qeq_bool res 0) eqn:Hb;
    [apply Qeq_bool_iff in Hb; contradiction|].
  assert (0 / res == 0) as E0 by (unfold Qdiv; apply Qmult_0_l).
  rewrite (round64_comp _ _ E0). reflexivity.
Qed.

Lemma bin_count_spec hi lo res :
  (1 <= bin_count hi lo res)%Z ->
  int_ceil_div hi lo res = inr (bin_count hi lo res).
Proof.
  unfold bin_count. destruct (int_ceil_div hi lo res); [lia | reflexivity].
Qed.

Lemma int_ceil_div_exceptions hi lo res e :
  int_ceil_div hi lo res = inl e ->
  e = OverflowError "cannot convert float infinity to integer" \/
  e = ValueError "cannot convert float NaN to integer".
Proof.
  unfold int_ceil_div.
  destruct (fdiv (fsub hi lo) res); intros [= <-]; auto.
Qed.

Lemma round64_not_nan q : round64 q <> NaN.
Proof.
  unfold round64.
  destruct (Z.abs (Qnum (Qred q)) =? 0)%Z; [discriminate|].
  destruct (scaled _ _ _) as [n' d'].
  destruct (Qle_bool _ _); discriminate.
Qed.

(** NaN needs a resolution of 0. *)
Lemma int_ceil_div_no_nan hi lo res :
  ~ res == 0 ->
  int_ceil_div hi lo res
  <> inl (ValueError "cannot convert float NaN to integer").
Proof.
  intros Hr0. unfold int_ceil_div, fsub, fdiv.
  pose proof (round64_not_nan (hi - lo)) as Hn.
  destruct (round64 (hi - lo)) as [x| |]; [|discriminate|congruence].
  destruct (Qeq_bool res 0) eqn:Hb;
    [apply Qeq_bool_iff in Hb; contradiction|].
  pose proof (round64_not_nan (x / res)) as Hn'.
  destruct (round64 (x / res)); [discriminate|discriminate|congruence].
Qed.

(** The map built when both bin counts are at least 1. *)
Lemma build_map_ok res axw ayw aint xmin xmax ymin ymax :
  array_min (hstack axw) = Some xmin -> array_max (hstack axw) = Some xmax ->
  array_min (hstack ayw) = Some ymin -> array_max (hstack ayw) = Some ymax ->
  length (hstack ayw) = length (hstack axw) ->
  length (hstack aint) = length (hstack axw) ->
  (1 <= bin_count xmax xmin res)%Z -> (1 <= bin_count ymax ymin res)%Z ->
  let nx := Z.to_nat (bin_count xmax xmin res) in
  let ny := Z.to_nat (bin_count ymax ymin res) in
  let xe := linspace xmin xmax nx in
  let ye := linspace ymin ymax ny in
  let pts := combine (hstack axw) (hstack ayw) in
  let cnt := core_hist xe ye nx ny
                       (combine pts (map (fun _ => 1) (hstack axw))) in
  0 < res /\ xmin < xmax /\ ymin < ymax /\
  (1 <= nx)%nat /\ (1 <= ny)%nat /\
  build_map res axw ayw aint
  = inr (mkMap (divide_masked
                  (core_hist xe ye nx ny (combine pts (hstack aint))) cnt)
               cnt xe ye (xmin, xmax, ymin, ymax)).
Proof.
  intros Hxmin Hxmax Hymin Hymax Hly Hli Hnx Hny. cbn zeta.
  pose proof (bin_count_spec _ _ _ Hnx) as Ex.
  pose proof (bin_count_spec _ _ _ Hny) as Ey.
  destruct (int_ceil_div_pos_inv _ _ _ _ Ex Hnx
              (min_le_max _ _ _ (array_min_spec _ _ Hxmin)
                          (array_max_spec _ _ Hxmax))) as [Hres Hx].
  destruct (int_ceil_div_pos_inv _ _ _ _ Ey Hny
              (min_le_max _ _ _ (array_min_spec _ _ Hymin)
                          (array_max_spec _ _ Hymax))) as [_ Hy].
  do 3 (split; [assumption|]).
  split; [lia|]. split; [lia|].
  unfold build_map. rewrite Hxmin, Hxmax, Hymin, Hymax, Ex, Ey.
  rewrite (histogram2d_ok _ _ _ _ _ _ _ _ (Some (hstack aint)))
    by (try assumption; try (symmetry; assumption);
        intros w [= <-]; assumption).
  rewrite (histogram2d_ok _ _ _ _ _ _ _ _ None)
    by (try assumption; try (symmetry; assumption); intros w [=]).
  reflexivity.
Qed.

Lemma in_samples_coords (xw yw int : list Q) (s : sample) :
  In s (combine (combine xw yw) int) ->
  In (fst (fst s)) xw /\ In (snd (fst s)) yw.
Proof.
  destruct s as [[x y] w]. intros H. apply in_combine_l in H. cbn.
  split; [eapply in_combine_l | eapply in_combine_r]; exact H.
Qed.

Lemma in_cell_true xe ye i j x y :
  in_cell xe ye i j x y = true <->
  bin_number xe x = (Z.of_nat i + 1)%Z /\ bin_number ye y = (Z.of_nat j + 1)%Z.
Proof.
  unfold in_cell. rewrite andb_true_iff, !Z.eqb_eq. reflexivity.
Qed.

Lemma int_ceil_div_inr hi lo res n :
  int_ceil_div hi lo res = inr n ->
  exists q, fdiv (fsub hi lo) res = Finite q /\ n = Qceiling q.
Proof.
  unfold int_ceil_div.
  destruct (fdiv (fsub hi lo) res) as [q| |]; intros [= <-].
  exists q. split; reflexivity.
Qed.

Lemma bracket_unique (edges : list Q) n i i' x :
  ascending edges -> length edges = S n ->
  (i < n)%nat -> (i' < n)%nat ->
  bracket edges n i x -> bracket edges n i' x -> i = i'.
Proof.
  intros Hasc Hlen Hi Hi' (L & _ & R) (L' & _ & R').
  destruct (Nat.lt_trichotomy i i') as [Hlt|[E|Hlt]]; [|exact E|]; exfalso.
  - destruct R as [R|R]; [|lia].
    pose proof (Hasc (S i) i' ltac:(lia) ltac:(lia)). lra.
  - destruct R' as [R'|R']; [|lia].
    pose proof (Hasc (S i') i ltac:(lia) ltac:(lia)). lra.
Qed.

(** C2 (as amended). Samples whose bounding box is [xmin, xmax] x
    [ymin, ymax] (minimum and maximum of the x and of the y coordinates)
    and for which both bin counts of lines 135-136, int(ceil((max - min) /
    resolution)) computed in float64, are at least 1. Then the resolution is
    positive and the box has a positive extent on both axes; the map is
    built; its extent is the bounding box; it has nx rows of ny cells, nx and
    ny being the ceilings of the two float64 quotients; every sample lies in
    one cell of the grid; the samples of cell (i, j) are those whose
    coordinates lie in the interval of the cell on both axes, closed on the
    left and open on the right (the last cell of an axis includes the last
    edge); the count of a cell is the number of samples in it, and a cell
    that holds samples stores the sum of their intensities divided by their
    number. *)
Theorem build_map_bins_every_sample (res : Q) (axw ayw aint : list (list Q))
        (xmin xmax ymin ymax : Q) :
  let xw := hstack axw in
  let yw := hstack ayw in
  let int := hstack aint in
  array_min xw = Some xmin -> array_max xw = Some xmax ->
  array_min yw = Some ymin -> array_max yw = Some ymax ->
  length yw = length xw -> length int = length xw ->
  (1 <= bin_count xmax xmin res)%Z -> (1 <= bin_count ymax ymin res)%Z ->
  minimum_of xmin xw /\ maximum_of xmax xw /\
  minimum_of ymin yw /\ maximum_of ymax yw /\
  0 < res /\ xmin < xmax /\ ymin < ymax /\
  exists qx qy m,
    fdiv (fsub xmax xmin) res = Finite qx /\
    fdiv (fsub ymax ymin) res = Finite qy /\
    build_map res axw ayw aint = inr m /\
    extent m = (xmin, xmax, ymin, ymax) /\
    let nx := Z.to_nat (Qceiling qx) in
    let ny := Z.to_nat (Qceiling qy) in
    let samples := combine (combine xw yw) int in
    let inside i j := samples_in (xedges m) (yedges m) i j samples in
    (1 <= Qceiling qx)%Z /\ (1 <= Qceiling qy)%Z /\
    length (heatmap m) = nx /\
    (forall i, (i < nx)%nat -> length (nth i (heatmap m) []) = ny) /\
    (forall s, In s samples ->
       exists i j, (i < nx)%nat /\ (j < ny)%nat /\ In s (inside i j)) /\
    (forall s i j, (i < nx)%nat -> (j < ny)%nat ->
       (In s (inside i j) <->
        In s samples /\
        bracket (xedges m) nx i (fst (fst s)) /\
        bracket (yedges m) ny j (snd (fst s)))) /\
    (forall i j, (i < nx)%nat -> (j < ny)%nat ->
       cell (counts m) i j == inject_Z (Z.of_nat (length (inside i j))) /\
       (inside i j <> [] ->
        cell (heatmap m) i j
        == Qsum (map snd (inside i j))
           / inject_Z (Z.of_nat (length (inside i j))))).
Proof.
  intros xw yw int Hxmin Hxmax Hymin Hymax Hly Hli Bx By.
  pose proof (array_min_spec _ _ Hxmin) as Sxmin.
  pose proof (array_max_spec _ _ Hxmax) as Sxmax.
  pose proof (array_min_spec _ _ Hymin) as Symin.
  pose proof (array_max_spec _ _ Hymax) as Symax.
  destruct (build_map_ok res axw ayw aint xmin xmax ymin ymax
                         Hxmin Hxmax Hymin Hymax Hly Hli Bx By)
    as (Hres & Hx & Hy & Hnx & Hny & Hbuild).
  do 4 (split; [assumption|]).
  do 3 (split; [assumption|]).
  destruct (int_ceil_div_inr _ _ _ _ (bin_count_spec _ _ _ Bx))
    as (qx & Fx & Ex).
  destruct (int_ceil_div_inr _ _ _ _ (bin_count_spec _ _ _ By))
    as (qy & Fy & Ey).
  fold xw yw int in Hbuild.
  rewrite Ex in Hbuild, Hnx, Bx. rewrite Ey in Hbuild, Hny, By.
  set (nx := Z.to_nat (Qceiling qx)) in *.
  set (ny := Z.to_nat (Qceiling qy)) in *.
  set (xe := linspace xmin xmax nx) in *.
  set (ye := linspace ymin ymax ny) in *.
  set (samples := combine (combine xw yw) int) in *.
  set (ones := combine (combine xw yw) (map (fun _ => 1) xw)) in *.
  eexists qx, qy, _.
  split; [exact Fx|]. split; [exact Fy|].
  split; [exact Hbuild|]. split; [reflexivity|].
  cbn zeta. cbn [heatmap counts xedges yedges]. fold nx ny.
  assert (forall s, In s samples ->
            xmin <= fst (fst s) /\ fst (fst s) <= xmax /\
            ymin <= snd (fst s) /\ snd (fst s) <= ymax) as Hbox.
  { intros s Hs. destruct (in_samples_coords _ _ _ _ Hs) as [Hsx Hsy].
    repeat split; [apply Sxmin | apply Sxmax | apply Symin | apply Symax];
      assumption. }
  split; [exact Bx|]. split; [exact By|].
  split.
  { rewrite divide_masked_length; rewrite !core_hist_length; reflexivity. }
  split.
  { intros i Hi.
    rewrite divide_masked_row;
      rewrite ?core_hist_length, ?core_hist_row by exact Hi;
      try exact Hi; reflexivity. }
  split.
  { intros s Hs. destruct (Hbox s Hs) as (B1 & B2 & B3 & B4).
    destruct (bin_number_linspace xmin xmax nx (fst (fst s)) Hnx Hx B1 B2)
      as (i & Hi & Ei & _).
    destruct (bin_number_linspace ymin ymax ny (snd (fst s)) Hny Hy B3 B4)
      as (j & Hj & Ej & _).
    exists i, j. split; [exact Hi|]. split; [exact Hj|].
    apply filter_In. split; [exact Hs|].
    apply in_cell_true. split; assumption. }
  split.
  { intros s i j Hi Hj.
    assert (In s samples ->
            exists i' j', (i' < nx)%nat /\ (j' < ny)%nat /\
              bin_number xe (fst (fst s)) = (Z.of_nat i' + 1)%Z /\
              bin_number ye (snd (fst s)) = (Z.of_nat j' + 1)%Z /\
              bracket xe nx i' (fst (fst s)) /\
              bracket ye ny j' (snd (fst s))) as Hcell.
    { intros Hs. destruct (Hbox s Hs) as (B1 & B2 & B3 & B4).
      destruct (bin_number_linspace xmin xmax nx (fst (fst s)) Hnx Hx B1 B2)
        as (i' & Hi' & Ei & X1 & X2 & X3).
      destruct (bin_number_linspace ymin ymax ny (snd (fst s)) Hny Hy B3 B4)
        as (j' & Hj' & Ej & Y1 & Y2 & Y3).
      exists i', j'. unfold bracket. repeat split; assumption. }
    split.
    - intros Hs. apply filter_In in Hs. destruct Hs as [Hs Hc].
      apply in_cell_true in Hc. destruct Hc as [Ci Cj].
      destruct (Hcell Hs) as (i' & j' & _ & _ & Ei & Ej & Kx & Ky).
      assert (i' = i) as <- by lia. assert (j' = j) as <- by lia.
      split; [exact Hs|]. split; assumption.
    - intros (Hs & Kx & Ky).
      destruct (Hcell Hs) as (i' & j' & Hi' & Hj' & Ei & Ej & Kx' & Ky').
      assert (i = i') as ->.
      { apply (bracket_unique xe nx i i' (fst (fst s))); try assumption.
        - apply linspace_ascending; [exact Hnx | apply Qlt_le_weak, Hx].
        - apply linspace_length. }
      assert (j = j') as ->.
      { apply (bracket_unique ye ny j j' (snd (fst s))); try assumption.
        - apply linspace_ascending; [exact Hny | apply Qlt_le_weak, Hy].
        - apply linspace_length. }
      apply filter_In. split; [exact Hs|].
      apply in_cell_true. split; assumption. }
  intros i j Hi Hj.
  assert (cell (core_hist xe ye nx ny ones) i j
          == inject_Z (Z.of_nat (length (samples_in xe ye i j samples))))
    as Hcount.
  { rewrite cell_core_hist by assumption. unfold samples_in, ones, samples.
    apply (unit_weights_count
             (fun p => in_cell xe ye i j (fst p) (snd p))).
    - rewrite length_combine. lia.
    - rewrite length_combine. lia. }
  split; [exact Hcount|].
  intros Hne.
  rewrite cell_divide_masked;
    rewrite ?core_hist_length, ?core_hist_row by exact Hi; try assumption.
  assert (0 < inject_Z (Z.of_nat (length (samples_in xe ye i j samples))))
    as Hpos.
  { apply inject_nat_pos.
    destruct (samples_in xe ye i j samples); [congruence | cbn; lia]. }
  assert (Qlt_bool 0 (cell (core_hist xe ye nx ny ones) i j) = true) as ->.
  { apply Qlt_bool_iff. rewrite Hcount. exact Hpos. }
  rewrite Hcount. rewrite cell_core_hist by assumption. reflexivity.
Qed.

(** *** Cells without samples *)

Lemma histogram2d_inv x y nx ny range w h1 xe1 ye1 h2 xe2 ye2 :
  histogram2d x y (nx, ny) range (Some w) = inr (h1, xe1, ye1) ->
  histogram2d x y (nx, ny) range None = inr (h2, xe2, ye2) ->
  xe2 = xe1 /\ ye2 = ye1 /\
  length x = length y /\ length w = length x /\
  h1 = core_hist xe1 ye1 (Z.to_nat nx) (Z.to_nat ny)
                 (combine (combine x y) w) /\
  h2 = core_hist xe1 ye1 (Z.to_nat nx) (Z.to_nat ny)
                 (combine (combine x y) (map (fun _ => 1) x)).
Proof.
  unfold histogram2d. destruct range as [rx ry].
  destruct (Nat.eqb_spec (length x) (length y)) as [Hl|]; cbn [negb];
    [|discriminate].
  destruct (nx <? 1)%Z; [discriminate|].
  destruct (get_outer_edges rx) as [|[x0 x1]]; [discriminate|].
  destruct (ny <? 1)%Z; [discriminate|].
  destruct (get_outer_edges ry) as [|[y0 y1]]; [discriminate|].
  destruct (Nat.eqb_spec (length w) (length x)) as [Hw|]; cbn [negb];
    [|discriminate].
  rewrite length_map, Nat.eqb_refl. cbn [negb].
  intros [= <- <- <-] [= <- <- <-]. repeat split; assumption.
Qed.

(** The shape of every map that [build_map] returns. *)
Lemma build_map_inv res axw ayw aint m :
  build_map res axw ayw aint = inr m ->
  exists nx ny,
    let pts := combine (hstack axw) (hstack ayw) in
    length (hstack axw) = length (hstack ayw) /\
    length (hstack aint) = length (hstack axw) /\
    counts m = core_hist (xedges m) (yedges m) nx ny
                         (combine pts (map (fun _ => 1) (hstack axw))) /\
    heatmap m
    = divide_masked (core_hist (xedges m) (yedges m) nx ny
                               (combine pts (hstack aint)))
                    (counts m).
Proof.
  unfold build_map.
  destruct (array_min (hstack axw)) as [xmin|]; [|discriminate].
  destruct (array_max (hstack axw)) as [xmax|]; [|discriminate].
  destruct (array_min (hstack ayw)) as [ymin|]; [|discriminate].
  destruct (array_max (hstack ayw)) as [ymax|]; [|discriminate].
  destruct (int_ceil_div xmax xmin res) as [|nx]; [discriminate|].
  destruct (int_ceil_div ymax ymin res) as [|ny]; [discriminate|].
  destruct (histogram2d _ _ _ _ (Some _)) as [|[[h1 xe1] ye1]] eqn:H1;
    [discriminate|].
  destruct (histogram2d _ _ _ _ None) as [|[[h2 xe2] ye2]] eqn:H2;
    [discriminate|].
  intros [= <-].
  destruct (histogram2d_inv _ _ _ _ _ _ _ _ _ _ _ _ H1 H2)
    as (_ & _ & Hl & Hw & -> & ->).
  exists (Z.to_nat nx), (Z.to_nat ny). cbn. repeat split; assumption.
Qed.

Lemma cell_outside_row (g : list (list Q)) i j :
  (length (nth i g []) <= j)%nat -> cell g i j = 0.
Proof. intros H. unfold cell. apply nth_overflow. exact H. Qed.

(** C3 (as amended). In every map the script builds, a cell whose count is
    0 holds the value 0: no marker sets it apart, and it is equal to every
    cell whose mean intensity is 0. *)
Theorem uncovered_cell_is_zero (res : Q) (axw ayw aint : list (list Q))
        (m : SeabedMap) :
  build_map res axw ayw aint = inr m ->
  forall i j,
    cell (counts m) i j == 0 ->
    cell (heatmap m) i j == 0 /\
    (forall i' j', cell (heatmap m) i' j' == 0 ->
                   cell (heatmap m) i j == cell (heatmap m) i' j').
Proof.
  intros Hb i j Hc.
  assert (cell (heatmap m) i j == 0) as Hz.
  { destruct (build_map_inv _ _ _ _ _ Hb) as (nx & ny & Hlx & Hli & Hcnt & Hheat).
    cbn zeta in *.
    set (pts := combine (hstack axw) (hstack ayw)) in *.
    set (sums := core_hist (xedges m) (yedges m) nx ny
                           (combine pts (hstack aint))) in *.
    destruct (Nat.lt_ge_cases i nx) as [Hi|Hi];
      [destruct (Nat.lt_ge_cases j ny) as [Hj|Hj]|].
    - rewrite Hheat. rewrite cell_divide_masked;
        rewrite ?Hcnt; unfold sums;
        rewrite ?core_hist_length, ?core_hist_row by exact Hi;
        try assumption.
      rewrite <- Hcnt.
      assert (Qlt_bool 0 (cell (counts m) i j) = false) as ->.
      { destruct (Qlt_bool 0 (cell (counts m) i j)) eqn:E; [|reflexivity].
        apply Qlt_bool_iff in E. rewrite Hc in E.
        exfalso. apply (Qlt_irrefl _ E). }
      rewrite cell_core_hist by assumption.
      rewrite Hcnt, cell_core_hist in Hc by assumption.
      unfold samples_in in Hc.
      rewrite (unit_weights_count
                 (fun p => in_cell (xedges m) (yedges m) i j (fst p) (snd p))
                 pts (hstack axw) (hstack aint)) in Hc.
      + change 0 with (inject_Z 0) in Hc.
        apply (proj1 (inject_Z_injective _ _)) in Hc.
        unfold samples_in.
        destruct (filter _ (combine pts (hstack aint))); [reflexivity|].
        cbn in Hc. lia.
      + unfold pts. rewrite length_combine. lia.
      + unfold pts. rewrite length_combine. lia.
    - rewrite cell_outside_row; [reflexivity|].
      rewrite Hheat, divide_masked_row;
        rewrite ?Hcnt; unfold sums;
        rewrite ?core_hist_length, ?core_hist_row by exact Hi;
        try assumption; try reflexivity.
    - rewrite cell_outside_row; [reflexivity|].
      rewrite nth_overflow; [cbn; lia|].
      rewrite Hheat, divide_masked_length;
        rewrite ?Hcnt; unfold sums; rewrite ?core_hist_length;
        try assumption; reflexivity. }
  split; [exact Hz|].
  intros i' j' Hz'. rewrite Hz, Hz'. reflexivity.
Qed.

(** *** Samples on one line, and resolutions that are not positive *)

Lemma all_equal_bounds l lo hi :
  minimum_of lo l -> maximum_of hi l ->
  (forall x x', In x l -> In x' l -> x == x') -> hi == lo.
Proof.
  intros [Hlo _] [Hhi _] Heq. exact (Heq hi lo Hhi Hlo).
Qed.

Lemma get_outer_edges_ordered lo hi :
  lo <= hi -> exists e0 e1, get_outer_edges (lo, hi) = inr (e0, e1).
Proof.
  intros H. unfold get_outer_edges.
  apply Qle_bool_iff in H. rewrite H.
  destruct (Qeq_bool lo hi); eexists; eexists; reflexivity.
Qed.

(** C10. Non-empty samples and a positive resolution: when all x
    coordinates are equal the extent on x is 0, so nx = ceil(0 / resolution)
    = 0 and the histogram call raises ValueError for bins[0]; when all y
    coordinates are equal ny = 0 and it raises ValueError for bins[0] or for
    bins[1]. The one other outcome is the OverflowError of lines 135-136,
    raised before the histogram call when the float64 quotient of the other
    axis is infinite. No map is built in any of these cases. *)
Theorem zero_extent_fails (res : Q) (axw ayw aint : list (list Q)) :
  let xw := hstack axw in
  let yw := hstack ayw in
  0 < res -> xw <> [] -> length yw = length xw ->
  ((forall x x', In x xw -> In x' xw -> x == x') ->
   build_map res axw ayw aint = inl (ValueError bins0_positive) \/
   build_map res axw ayw aint
   = inl (OverflowError "cannot convert float infinity to integer")) /\
  ((forall y y', In y yw -> In y' yw -> y == y') ->
   build_map res axw ayw aint = inl (ValueError bins0_positive) \/
   build_map res axw ayw aint = inl (ValueError bins1_positive) \/
   build_map res axw ayw aint
   = inl (OverflowError "cannot convert float infinity to integer")).
Proof.
  intros xw yw Hres Hne Hlen.
  assert (yw <> []) as Hney.
  { intros E. rewrite E in Hlen. destruct xw; [congruence | discriminate]. }
  destruct (array_min_some xw Hne) as [xmin Hxmin].
  destruct (array_max_some xw Hne) as [xmax Hxmax].
  destruct (array_min_some yw Hney) as [ymin Hymin].
  destruct (array_max_some yw Hney) as [ymax Hymax].
  pose proof (array_min_spec _ _ Hxmin) as Sxmin.
  pose proof (array_max_spec _ _ Hxmax) as Sxmax.
  pose proof (array_min_spec _ _ Hymin) as Symin.
  pose proof (array_max_spec _ _ Hymax) as Symax.
  assert (~ res == 0) as Hr0 by lra.
  unfold build_map. fold xw yw. rewrite Hxmin, Hxmax, Hymin, Hymax.
  unfold histogram2d. rewrite Hlen, Nat.eqb_refl. cbn [negb].
  split.
  - intros Hall.
    rewrite (int_ceil_div_zero_extent _ _ res
               (all_equal_bounds _ _ _ Sxmin Sxmax Hall) Hr0).
    destruct (int_ceil_div ymax ymin res) as [e|ny] eqn:Ey.
    { destruct (int_ceil_div_exceptions _ _ _ _ Ey) as [->| ->].
      - right. reflexivity.
      - exfalso. exact (int_ceil_div_no_nan _ _ _ Hr0 Ey). }
    left. reflexivity.
  - intros Hall.
    rewrite (int_ceil_div_zero_extent _ _ res
               (all_equal_bounds _ _ _ Symin Symax Hall) Hr0).
    destruct (int_ceil_div xmax xmin res) as [e|nx] eqn:Ex.
    { destruct (int_ceil_div_exceptions _ _ _ _ Ex) as [->| ->].
      - right. right. reflexivity.
      - exfalso. exact (int_ceil_div_no_nan _ _ _ Hr0 Ex). }
    destruct (nx <? 1)%Z; [left; reflexivity|].
    destruct (get_outer_edges_ordered xmin xmax (min_le_max _ _ _ Sxmin Sxmax))
      as (e0 & e1 & ->).
    right. left. reflexivity.
Qed.

(** With a resolution that is zero or negative no map is ever built. *)
Lemma build_map_bad_resolution res axw ayw aint :
  res <= 0 -> exists e, build_map res axw ayw aint = inl e.
Proof.
  intros Hres. unfold build_map.
  destruct (array_min (hstack axw)) as [xmin|] eqn:Hxmin;
    [|eexists; reflexivity].
  destruct (array_max (hstack axw)) as [xmax|] eqn:Hxmax;
    [|eexists; reflexivity].
  destruct (array_min (hstack ayw)) as [ymin|]; [|eexists; reflexivity].
  destruct (array_max (hstack ayw)) as [ymax|]; [|eexists; reflexivity].
  destruct (int_ceil_div xmax xmin res) as [e|nx] eqn:Ex;
    [eexists; reflexivity|].
  destruct (int_ceil_div ymax ymin res) as [e|ny]; [eexists; reflexivity|].
  pose proof (min_le_max _ _ _ (array_min_spec _ _ Hxmin)
                         (array_max_spec _ _ Hxmax)) as Hext.
  unfold histogram2d.
  destruct (negb (length (hstack axw) =? length (hstack ayw))%nat);
    [eexists; reflexivity|].
  destruct (Z.ltb_spec nx 1) as [_|H]; [eexists; reflexivity|].
  destruct (int_ceil_div_pos_inv _ _ _ _ Ex H Hext) as [Hpos _].
  exfalso. lra.
Qed.

(** ** The whole run *)

Section Program.

Context {lib : Libraries}.

Lemma no_frames_no_batches args msgs :
  processed_frames (fst (for_messages args init msgs)) = 0%Z ->
  all_xw (fst (for_messages args init msgs)) = [].
Proof.
  intros H.
  pose proof (for_messages_batches_le_processed args msgs init) as Hle.
  cbn [init all_xw processed_frames length] in Hle.
  specialize (Hle ltac:(lia)). rewrite H in Hle.
  destruct (all_xw (fst (for_messages args init msgs))); [reflexivity|].
  cbn [length] in Hle. lia.
Qed.

(** C8. When the loop ends with no frame counted as processed, or with no
    batch accumulated, [main] raises RuntimeError with the message
    [no_sonar_data] and leaves no output file. *)
Theorem empty_input_fails (cl : CommandLine) (msgs : list message) :
  let final := fst (for_messages (parse_args cl) init msgs) in
  processed_frames final = 0%Z \/ all_xw final = [] ->
  main cl msgs = Raised (RuntimeError no_sonar_data) /\
  artifacts (main cl msgs) = [].
Proof.
  intros final H.
  assert (all_xw final = []) as Hnil.
  { destruct H as [H|H]; [apply no_frames_no_batches; exact H | exact H]. }
  unfold main, finish. fold final. rewrite Hnil. split; reflexivity.
Qed.

(** A stride of 1 or less never skips a frame. *)
Lemma skipped_small_stride args total :
  (skip_frames args <= 1)%Z -> skipped args total = false.
Proof.
  intros H. unfold skipped.
  destruct (Z.ltb_spec 1 (skip_frames args)); [lia | reflexivity].
Qed.

Lemma body_small_stride args st m :
  (skip_frames args <= 1)%Z ->
  body args st m = body (with_stride args 1) st m.
Proof.
  intros H. destruct m as [lat lon|d|d|data|]; try reflexivity.
  unfold body.
  destruct (easting (poses st)), (northing (poses st)),
    (heading (poses st)), (depth (poses st)); try reflexivity.
  unfold sonar_frame.
  rewrite (skipped_small_stride args) by exact H.
  rewrite (skipped_small_stride (with_stride args 1)) by (cbn; lia).
  reflexivity.
Qed.

Lemma for_messages_small_stride args msgs :
  (skip_frames args <= 1)%Z ->
  forall st,
    for_messages args st msgs = for_messages (with_stride args 1) st msgs.
Proof.
  intros H. induction msgs as [|m rest IH]; intros st; cbn [for_messages];
    [reflexivity|].
  rewrite (body_small_stride args st m H).
  destruct (body (with_stride args 1) st m) as [st' [|]];
    [apply IH | reflexivity].
Qed.

(** C9 (as amended). [parse_args] checks no value, so a configuration that
    is not positive is not rejected before the bag is read. A resolution
    that is zero or negative makes the run end with an exception, raised
    after the loop; a cap that is zero or negative makes it end with the
    [no_sonar_data] RuntimeError; a stride that is zero or negative is
    accepted and the run is the same as with stride 1. *)
Theorem bad_configuration_not_rejected (cl : CommandLine)
        (msgs : list message) :
  let args := parse_args cl in
  (resolution args <= 0 -> exists e, main cl msgs = Raised e) /\
  (forall c, max_frames args = Some c -> (c <= 0)%Z ->
             main cl msgs = Raised (RuntimeError no_sonar_data)) /\
  ((skip_frames args <= 0)%Z -> main cl msgs = main (with_opt_stride cl 1) msgs).
Proof.
  cbn zeta. repeat split.
  - intros Hres. unfold main, finish.
    destruct (all_xw (fst (for_messages (parse_args cl) init msgs)))
      as [|b bs]; [eexists; reflexivity|].
    destruct (build_map_bad_resolution
                (resolution (parse_args cl))
                (b :: bs)
                (all_yw (fst (for_messages (parse_args cl) init msgs)))
                (all_int (fst (for_messages (parse_args cl) init msgs)))
                Hres) as [e ->].
    eexists. reflexivity.
  - intros c Hcap Hc.
    pose proof (for_messages_batches_le_cap (parse_args cl) c msgs Hcap init)
      as Hle.
    cbn [init all_xw processed_frames length] in Hle.
    specialize (Hle ltac:(lia) ltac:(lia)).
    unfold main, finish.
    destruct (all_xw (fst (for_messages (parse_args cl) init msgs)));
      [reflexivity|].
    cbn [length] in Hle. lia.
  - intros Hs. unfold main.
    change (parse_args (with_opt_stride cl 1))
      with (with_stride (parse_args cl) 1).
    rewrite <- for_messages_small_stride by lia. reflexivity.
Qed.

End Program.

(** ** Worked examples *)

(** C1 at a frame of one pixel (2, 3, 10), pose (100, 200), heading 0. *)
Lemma world_transform_witness :
  exists X Y,
    samples_of (fst (@body synthetic (parse_args (command_line 1 None None))
                           posed (frame1 x02 x03 x0a)))
    = ([X], [Y], [[10]]) /\
    nth 0 X 0 == 2 + 100 /\ nth 0 Y 0 == 3 + 200.
Proof.
  destruct (@world_transform synthetic (parse_args (command_line 1 None None))
              posed [x02; x03; x0a] 100 200 0 5
              (mkPolar [[10]] [2] [3] [1])
              eq_refl eq_refl eq_refl eq_refl eq_refl eq_refl eq_refl eq_refl)
    as (X & Y & Hs & _ & _ & _ & H0).
  exists X, Y. split; [exact Hs|].
  apply (H0 eq_refl); [vm_compute; reflexivity | vm_compute; reflexivity|].
  cbn. lia.
Defined.

(** C2 fails for a single sample: the set is not empty, the resolution is
    positive, and no map is built. *)
Lemma one_sample_builds_no_map :
  hstack [[0]] <> [] /\ 0 < 1 # 2 /\
  build_map (1 # 2) [[0]] [[0]] [[5]] = inl (ValueError bins0_positive).
Proof.
  split; [discriminate|]. split; reflexivity.
Qed.

(** C2 (as amended) at the samples (0,0,10), (0,0,20), (3,3,30),
    resolution 2: two bins on each axis; the cell of the origin holds two
    samples and their mean 15, the opposite cell one sample of 30. *)
Lemma build_map_bins_every_sample_witness :
  (1 <= bin_count 3 0 2)%Z /\
  exists m,
    build_map 2 [[0]; [0]; [3]] [[0]; [0]; [3]] [[10]; [20]; [30]] = inr m /\
    length (heatmap m) = 2%nat /\
    cell (counts m) 0 0 == 2 /\ cell (heatmap m) 0 0 == 15 /\
    cell (counts m) 1 1 == 1 /\ cell (heatmap m) 1 1 == 30.
Proof.
  assert (1 <= bin_count 3 0 2)%Z as Hn by (vm_compute; discriminate).
  split; [exact Hn|].
  destruct (build_map_bins_every_sample
              2 [[0]; [0]; [3]] [[0]; [0]; [3]] [[10]; [20]; [30]] 0 3 0 3
              eq_refl eq_refl eq_refl eq_refl eq_refl eq_refl Hn Hn)
    as (_ & _ & _ & _ & _ & _ & _ & qx & qy & m & _ & _ & Hb & _ & H).
  exists m. split; [exact Hb|].
  assert (m = mkMap [[30 # 2; 0]; [0; 30]] [[2; 0]; [0; 1]]
                    [0 # 2; 3 # 2; 3] [0 # 2; 3 # 2; 3] (0, 3, 0, 3)) as ->.
  { vm_compute in Hb. injection Hb as <-. reflexivity. }
  repeat split; vm_compute; reflexivity.
Defined.

(** X15. The bin count is the ceiling of the rounded quotient, not of the
    exact one. With the float64 values of 0.1 and 0.4 as bounds and 0.1 as
    resolution, the difference rounds to 0.30000000000000004 and the
    quotient to 3.0000000000000004: 4 bins, where the exact quotient is 3. *)
Lemma bin_count_of_rounded_quotient :
  let tenth := 3602879701896397 # 36028797018963968 in
  let four_tenths := 3602879701896397 # 9007199254740992 in
  round64 (1 # 10) = Finite tenth /\
  round64 (4 # 10) = Finite four_tenths /\
  int_ceil_div four_tenths tenth tenth = inr 4%Z /\
  Qceiling ((four_tenths - tenth) / tenth) = 3%Z.
Proof.
  repeat split; vm_compute; reflexivity.
Qed.

(** The same at the scale of UTM coordinates: eastings 500163.8 and
    500249.3 at resolution 0.3, each taken as the float64 nearest to the
    decimal, give 285 bins, where the exact quotient of the three floats
    rounds up to 286. *)
Lemma bin_count_at_utm_scale :
  match round64 (5002493 # 10), round64 (5001638 # 10), round64 (3 # 10) with
  | Finite hi, Finite lo, Finite res =>
      int_ceil_div hi lo res = inr 285%Z /\
      Qceiling ((hi - lo) / res) = 286%Z
  | _, _, _ => False
  end.
Proof.
  vm_compute. split; reflexivity.
Qed.

(** [round64] at the limits of the format: 2^53 + 1 is a tie and goes to the
    even neighbour 2^53, 2^53 + 3 goes to 2^53 + 4; half of the smallest
    subnormal goes to 0 and three quarters of it to the subnormal; the
    largest float is kept and the middle between it and 2^1024 is
    infinite. *)
Lemma round64_limits :
  round64 (inject_Z (2 ^ 53 + 1)) = Finite (inject_Z (2 ^ 53)) /\
  round64 (inject_Z (2 ^ 53 + 3)) = Finite (inject_Z (2 ^ 53 + 4)) /\
  round64 (2 ^ (-1075)) = Finite 0 /\
  round64 (3 * 2 ^ (-1076)) = Finite (Qred (2 ^ (-1074))) /\
  round64 (2 ^ 1024 - 2 ^ 971) = Finite (Qred (2 ^ 1024 - 2 ^ 971)) /\
  round64 (2 ^ 1024 - 2 ^ 970) = Infinity false /\
  round64 (- (1 # 3)) = Finite (- (6004799503160661 # 18014398509481984)).
Proof.
  repeat split; vm_compute; reflexivity.
Qed.

(** C3 fails on the samples (0,0,0), (3,3,20), (3,3,30), resolution 2:
    cell (0,1) has no sample, cell (0,0) has one sample of intensity 0, and
    the map stores the same value in both. *)
Lemma no_data_is_not_marked :
  exists m,
    build_map 2 [[0]; [3; 3]] [[0]; [3; 3]] [[0]; [20; 30]] = inr m /\
    cell (counts m) 0 1 == 0 /\
    0 < cell (counts m) 0 0 /\
    cell (heatmap m) 0 0 == 0 /\
    cell (heatmap m) 0 1 == cell (heatmap m) 0 0.
Proof.
  eexists. split; [vm_compute; reflexivity|].
  repeat split; vm_compute; reflexivity.
Qed.

(** C3 (as amended) on the same samples. *)
Lemma uncovered_cell_is_zero_witness :
  exists m,
    build_map 2 [[0]; [3; 3]] [[0]; [3; 3]] [[0]; [20; 30]] = inr m /\
    cell (counts m) 0 1 == 0 /\ cell (heatmap m) 0 1 == 0.
Proof.
  eexists. split; [vm_compute; reflexivity|].
  split; [vm_compute; reflexivity|].
  refine (proj1 (uncovered_cell_is_zero
                   2 [[0]; [3; 3]] [[0]; [3; 3]] [[0]; [20; 30]] _ _ 0%nat 1%nat _)).
  - vm_compute. reflexivity.
  - vm_compute. reflexivity.
Defined.

(** C4. The cell size is not the configured resolution: samples that span
    3 metres on both axes, binned with --resolution 2, give a grid over the
    bounding box [0, 3] x [0, 3] with 2 cells of 1.5 metres on each axis,
    while the help text of --resolution calls it the grid cell size in
    metres. *)
Lemma cell_width_is_not_resolution :
  exists m,
    build_map 2 [[0]; [3]] [[0]; [3]] [[1]; [1]] = inr m /\
    extent m = (0, 3, 0, 3) /\
    length (xedges m) = 3%nat /\ length (yedges m) = 3%nat /\
    nth 1 (xedges m) 0 - nth 0 (xedges m) 0 == 3 # 2 /\
    nth 2 (xedges m) 0 - nth 1 (xedges m) 0 == 3 # 2 /\
    nth 1 (yedges m) 0 - nth 0 (yedges m) 0 == 3 # 2 /\
    nth 2 (yedges m) 0 - nth 1 (yedges m) 0 == 3 # 2 /\
    ~ nth 1 (xedges m) 0 - nth 0 (xedges m) 0 == 2.
Proof.
  eexists. split; [vm_compute; reflexivity|].
  do 7 (split; [vm_compute; reflexivity|]).
  vm_compute. discriminate.
Qed.

(** C5 at stride 3 and four eligible frames (the first sonar message comes
    before the pose is complete): one frame is accepted. *)
Lemma stride_every_nth_witness :
  let msgs := frame1 x09 x09 x09 :: nav
              ++ [frame1 x00 x00 x01; frame1 x01 x01 x02;
                  frame1 x02 x02 x03; frame1 x03 x03 x04] in
  let final := fst (@for_messages synthetic
                      (parse_args (command_line 1 None (Some 3%Z))) init msgs) in
  total_raw_frames final = 4%Z /\ processed_frames final = (4 / 3)%Z /\
  all_xw final = [[2]].
Proof.
  cbn zeta.
  destruct (proj2 (@stride_every_nth synthetic
                     (parse_args (command_line 1 None (Some 3%Z)))
                     (frame1 x09 x09 x09 :: nav
                      ++ [frame1 x00 x00 x01; frame1 x01 x01 x02;
                          frame1 x02 x02 x03; frame1 x03 x03 x04])
                     ltac:(discriminate))
                  eq_refl) as (Ht & Hp & _).
  split; [exact Ht|]. split; [rewrite Hp, Ht; reflexivity|].
  vm_compute. reflexivity.
Defined.

(** C6 at cap 1: the second accepted frame breaks the loop, the two
    messages after it are never read, and one batch is kept. *)
Lemma cap_stops_stream_witness :
  let msgs := nav ++ [frame1 x00 x00 x01; frame1 x01 x01 x02;
                      frame1 x02 x02 x03; OtherTopic] in
  let run := @for_messages synthetic
               (parse_args (command_line 1 (Some 1%Z) None)) init msgs in
  snd run = Some [frame1 x02 x02 x03; OtherTopic] /\
  (Z.of_nat (length (all_xw (fst run))) <= 1)%Z.
Proof.
  cbn zeta. split; [vm_compute; reflexivity|].
  exact (proj2 (proj2 (@cap_stops_stream synthetic
                         (parse_args (command_line 1 (Some 1%Z) None)) 1
                         eq_refl))
               (nav ++ [frame1 x00 x00 x01; frame1 x01 x01 x02;
                        frame1 x02 x02 x03; OtherTopic])).
Defined.

(** C7 fails: a payload that is not a ping leaves the samples alone but
    moves the processed count from 0 to 1; with cap 2 the two frames that
    follow it are not both kept, the second one breaks the loop. *)
Lemma decode_failure_is_counted :
  let args := parse_args (command_line 1 (Some 2%Z) None) in
  let r := @body synthetic args posed not_a_ping in
  samples_of (fst r) = samples_of posed /\
  processed_frames posed = 0%Z /\ processed_frames (fst r) = 1%Z /\
  let run := @for_messages synthetic args init
               (nav ++ [not_a_ping; frame1 x00 x00 x01; frame1 x01 x01 x02]) in
  snd run = Some [] /\ all_int (fst run) = [[1]].
Proof.
  cbn zeta. repeat split; vm_compute; reflexivity.
Qed.

(** C7 (as amended) at the same payload. *)
Lemma decode_failure_takes_a_slot_witness :
  let r := @body synthetic (parse_args (command_line 1 (Some 2%Z) None))
                 posed not_a_ping in
  snd r = Next /\ samples_of (fst r) = samples_of posed /\
  processed_frames (fst r) = (processed_frames posed + 1)%Z.
Proof.
  cbn zeta.
  destruct (@decode_failure_takes_a_slot synthetic
              (parse_args (command_line 1 (Some 2%Z) None)) posed []
              eq_refl eq_refl eq_refl eq_refl) as (H1 & H2 & _ & _ & H3).
  repeat split; assumption.
Defined.

(** C8 on a bag whose sonar frames all come before the pose is complete. *)
Lemma empty_input_fails_witness :
  let msgs := [frame1 x00 x00 x01; CompassHdg 0; frame1 x01 x01 x02] in
  @main synthetic (command_line 1 None None) msgs
  = Raised (RuntimeError no_sonar_data) /\
  artifacts (@main synthetic (command_line 1 None None) msgs) = [].
Proof.
  exact (@empty_input_fails synthetic (command_line 1 None None)
           [frame1 x00 x00 x01; CompassHdg 0; frame1 x01 x01 x02]
           (or_introl eq_refl)).
Defined.

(** C9 fails: with [--skip-frames 0] the run is not rejected, it reads the
    bag and saves a map; with [--resolution 0] the exception depends on what
    the bag holds, so it is raised after the bag was read. *)
Lemma stride_zero_is_accepted :
  (skip_frames (parse_args (command_line 2 None (Some 0%Z))) <= 0)%Z /\
  (exists m,
      @main synthetic (command_line 2 None (Some 0%Z))
            (nav ++ [frame2 x00 x00 x0a x03 x03 x1e])
      = Saved "seabed_map.png" m) /\
  resolution (parse_args (command_line 0 None None)) <= 0 /\
  @main synthetic (command_line 0 None None) []
  = Raised (RuntimeError no_sonar_data) /\
  @main synthetic (command_line 0 None None)
        (nav ++ [frame2 x00 x00 x0a x03 x03 x1e])
  = Raised (OverflowError "cannot convert float infinity to integer").
Proof.
  split; [cbn; lia|].
  split; [eexists; vm_compute; reflexivity|].
  split; [cbn; discriminate|].
  split; vm_compute; reflexivity.
Qed.

(** C9 (as amended) at a zero resolution, a zero cap and a zero stride. *)
Lemma bad_configuration_not_rejected_witness :
  let msgs := nav ++ [frame2 x00 x00 x0a x03 x03 x1e] in
  (exists e, @main synthetic (command_line 0 None None) msgs = Raised e) /\
  @main synthetic (command_line 2 (Some 0%Z) None) msgs
  = Raised (RuntimeError no_sonar_data) /\
  @main synthetic (command_line 2 None (Some 0%Z)) msgs
  = @main synthetic (command_line 2 None (Some 1%Z)) msgs.
Proof.
  cbn zeta. split; [|split].
  - apply (proj1 (@bad_configuration_not_rejected synthetic
                    (command_line 0 None None)
                    (nav ++ [frame2 x00 x00 x0a x03 x03 x1e]))).
    cbn. discriminate.
  - apply (proj1 (proj2 (@bad_configuration_not_rejected synthetic
                           (command_line 2 (Some 0%Z) None)
                           (nav ++ [frame2 x00 x00 x0a x03 x03 x1e])))
             0%Z eq_refl).
    lia.
  - apply (proj2 (proj2 (@bad_configuration_not_rejected synthetic
                           (command_line 2 None (Some 0%Z))
                           (nav ++ [frame2 x00 x00 x0a x03 x03 x1e])))).
    cbn. lia.
Defined.

(** C10 on two samples of one vertical line, (4,0) and (4,1), and on two
    samples of one horizontal line, (0,4) and (1,4). *)
Lemma zero_extent_fails_witness :
  (build_map (1 # 2) [[4; 4]] [[0; 1]] [[7; 9]]
   = inl (ValueError bins0_positive) \/
   build_map (1 # 2) [[4; 4]] [[0; 1]] [[7; 9]]
   = inl (OverflowError "cannot convert float infinity to integer")) /\
  (build_map (1 # 2) [[0; 1]] [[4; 4]] [[7; 9]]
   = inl (ValueError bins0_positive) \/
   build_map (1 # 2) [[0; 1]] [[4; 4]] [[7; 9]]
   = inl (ValueError bins1_positive) \/
   build_map (1 # 2) [[0; 1]] [[4; 4]] [[7; 9]]
   = inl (OverflowError "cannot convert float infinity to integer")).
Proof.
  split.
  - apply (proj1 (zero_extent_fails (1 # 2) [[4; 4]] [[0; 1]] [[7; 9]]
                    eq_refl ltac:(discriminate) eq_refl)).
    intros x x' [<-|[<-|[]]] [<-|[<-|[]]]; reflexivity.
  - apply (proj2 (zero_extent_fails (1 # 2) [[0; 1]] [[4; 4]] [[7; 9]]
                    eq_refl ltac:(discriminate) eq_refl)).
    intros y y' [<-|[<-|[]]] [<-|[<-|[]]]; reflexivity.
Defined.

(** The same two vertical-line samples: at resolution 1/2 the error is the
    ValueError for bins[0]; at the smallest positive float64, 2^-1074 (what
    [--resolution 5e-324] parses to), the quotient of the y axis is infinite
    and line 136 raises OverflowError before the histogram is called. *)
Lemma vertical_line_errors :
  build_map (1 # 2) [[4; 4]] [[0; 1]] [[7; 9]]
  = inl (ValueError bins0_positive) /\
  build_map (2 ^ (-1074)) [[4; 4]] [[0; 1]] [[7; 9]]
  = inl (OverflowError "cannot convert float infinity to integer").
Proof.
  split; vm_compute; reflexivity.
Qed.

(** ** The frame extraction script *)

Lemma minutes_loop_spec rounds :
  forall min secs,
    (0 <= secs)%Z -> (secs / 60 <= Z.of_nat rounds)%Z ->
    minutes_loop rounds min secs = ((min + secs / 60)%Z, (secs mod 60)%Z).
Proof.
  induction rounds as [|rounds IH]; intros min secs H0 Hr;
    cbn [minutes_loop].
  - assert (secs / 60 = 0)%Z as Hq
        by (pose proof (Z.div_pos secs 60 H0 ltac:(lia)); lia).
    pose proof (Z.div_mod secs 60 ltac:(lia)) as E. rewrite Hq in *.
    f_equal; lia.
  - destruct (Z.leb_spec 60 secs) as [H60|H60].
    + assert (secs = (secs - 60) + 1 * 60)%Z as E by lia.
      assert (secs / 60 = (secs - 60) / 60 + 1)%Z as Hq
          by (rewrite E at 1; apply Z.div_add; lia).
      assert (secs mod 60 = (secs - 60) mod 60)%Z as Hm
          by (rewrite E at 1; apply Z.mod_add; lia).
      rewrite IH by lia. rewrite Hq, Hm. f_equal. lia.
    + rewrite Z.div_small, Z.mod_small by lia. f_equal. lia.
Qed.

(** X12. The minute loop of the file name: for a non-negative number of
    seconds it ends with the quotient and the remainder of the division by
    60; a negative number (a frame stamped before the session start) is
    left as it is, with minute 0. In both cases 60 * min + secs is the
    number it started from, and the seconds that remain are below 60. *)
Theorem minutes_seconds_spec (secs : Z) :
  minutes_seconds secs
  = (if (0 <=? secs)%Z then ((secs / 60)%Z, (secs mod 60)%Z) else (0%Z, secs))
  /\ (60 * fst (minutes_seconds secs) + snd (minutes_seconds secs) = secs)%Z
  /\ (snd (minutes_seconds secs) < 60)%Z.
Proof.
  assert (minutes_seconds secs
          = if (0 <=? secs)%Z then ((secs / 60)%Z, (secs mod 60)%Z)
            else (0%Z, secs)) as E.
  { unfold minutes_seconds. destruct (Z.leb_spec 0 secs) as [H|H].
    - rewrite minutes_loop_spec; [reflexivity | exact H |].
      rewrite Z2Nat.id by exact H.
      apply Z.div_le_upper_bound; lia.
    - replace (Z.to_nat secs) with 0%nat by lia. reflexivity. }
  split; [exact E|]. rewrite E.
  destruct (Z.leb_spec 0 secs) as [H|H]; cbn [fst snd].
  - pose proof (Z.div_mod secs 60 ltac:(lia)).
    pose proof (Z.mod_pos_bound secs 60 ltac:(lia)). lia.
  - lia.
Qed.

Lemma minutes_seconds_injective s1 s2 :
  minutes_seconds s1 = minutes_seconds s2 -> s1 = s2.
Proof.
  intros E.
  destruct (minutes_seconds_spec s1) as (_ & H1 & _).
  destruct (minutes_seconds_spec s2) as (_ & H2 & _).
  rewrite E in H1. lia.
Qed.

(** *** File names *)

Lemma plain_uint d : plain (NilEmpty.string_of_uint d) = true.
Proof. induction d; cbn; assumption || reflexivity. Qed.

Lemma plain_str z : plain (str z) = true.
Proof.
  unfold str, NilZero.string_of_int, NilZero.string_of_uint.
  destruct (Z.to_int z) as [d|d]; destruct d; cbn; try apply plain_uint;
    reflexivity.
Qed.

(** Two plain strings followed by an underscore and more text are equal
    only if they are the same string followed by the same text. *)
Lemma plain_prefix_unique a :
  forall a' r r',
    plain a = true -> plain a' = true ->
    (a ++ String underscore r)%string = (a' ++ String underscore r')%string ->
    a = a' /\ r = r'.
Proof.
  induction a as [|c a IH]; intros [|c' a'] r r' Ha Ha' E; cbn in *.
  - injection E as <-. split; reflexivity.
  - injection E as <- _. rewrite Ascii.eqb_refl in Ha'. discriminate.
  - injection E as -> _. rewrite Ascii.eqb_refl in Ha. discriminate.
  - injection E as <- E. apply andb_true_iff in Ha, Ha'.
    destruct (IH a' r r' (proj2 Ha) (proj2 Ha') E) as [-> ->].
    split; reflexivity.
Qed.

Lemma to_int_not_nil z :
  Z.to_int z <> Decimal.Pos Decimal.Nil /\ Z.to_int z <> Decimal.Neg Decimal.Nil.
Proof.
  split; intros E; pose proof (DecimalZ.of_to z) as H; rewrite E in H;
    cbn in H; subst z; discriminate E.
Qed.

Lemma str_injective z1 z2 : str z1 = str z2 -> z1 = z2.
Proof.
  unfold str. intros E.
  destruct (to_int_not_nil z1) as [P1 N1].
  destruct (to_int_not_nil z2) as [P2 N2].
  pose proof (NilZero.isi _ P1 N1) as I1.
  pose proof (NilZero.isi _ P2 N2) as I2.
  rewrite E in I1. rewrite I1 in I2. injection I2 as I.
  rewrite <- (DecimalZ.of_to z1), <- (DecimalZ.of_to z2), I. reflexivity.
Qed.

Lemma frame_filename_injective m1 s1 m2 s2 :
  frame_filename m1 s1 = frame_filename m2 s2 -> m1 = m2 /\ s1 = s2.
Proof.
  unfold frame_filename. intros E. cbn in E.
  repeat (injection E as E).
  change ((str m1 ++ String underscore ("min_" ++ str s1 ++ "_sec.png"))%string
          = (str m2 ++ String underscore ("min_" ++ str s2 ++ "_sec.png"))%string)
    in E.
  destruct (plain_prefix_unique _ _ _ _ (plain_str m1) (plain_str m2) E)
    as [Em E'].
  cbn in E'. repeat (injection E' as E').
  change ((str s1 ++ String underscore "sec.png")%string
          = (str s2 ++ String underscore "sec.png")%string) in E'.
  destruct (plain_prefix_unique _ _ _ _ (plain_str s1) (plain_str s2) E')
    as [Es _].
  split; apply str_injective; assumption.
Qed.

(** X13. Two frames are written to the same file exactly when line 85,
    int(timestamp / 1e9) with its float64 conversion and division, gives the
    same number for both timestamps: the later image then replaces the
    earlier one. (That number is not always the whole second of the integer
    timestamp: see [last_nanosecond_rounds_up].) *)
Theorem filename_at_same_second (t1 t2 : Z) :
  filename_at t1 = filename_at t2 <-> whole_seconds t1 = whole_seconds t2.
Proof.
  unfold filename_at. split.
  - intros E.
    destruct (minutes_seconds (whole_seconds t1 - session_start))
      as [m1 s1] eqn:E1.
    destruct (minutes_seconds (whole_seconds t2 - session_start))
      as [m2 s2] eqn:E2.
    destruct (frame_filename_injective _ _ _ _ E) as [-> ->].
    rewrite <- E2 in E1. apply minutes_seconds_injective in E1. lia.
  - intros ->. reflexivity.
Qed.

(** X16. The conversion of line 85 rounds: the last nanosecond of second
    1742392788 is not a float64, it becomes 1742392789000000000.0, so its
    frame is named after the next second and shares the file of the frame
    stamped one nanosecond later. A timestamp in the middle of the second
    keeps its own second. *)
Lemma last_nanosecond_rounds_up :
  whole_seconds 1742392788999999999 = 1742392789%Z /\
  whole_seconds 1742392789000000000 = 1742392789%Z /\
  whole_seconds 1742392788500000000 = 1742392788%Z /\
  filename_at 1742392788999999999 = filename_at 1742392789000000000 /\
  filename_at 1742392789000000000
  = "oculus_frames/oculus_frame_1_min_1_sec.png"%string.
Proof.
  repeat split; vm_compute; reflexivity.
Qed.

Section ExtractionFacts.

Context {lib : Libraries}.

(** X14. The files the extraction loop writes are those of the frames that
    decode, in bag order and with no pose needed, up to and including the
    frame after which the key [q] is read: payloads that do not decode and
    messages of other topics write nothing and read no key, and no frame
    after the quitting one is written. *)
Theorem extract_frames_writes (msgs : list (Z * message)) :
  forall (keys : list Z) (written : list (string * list (list Q))),
    extract_frames msgs keys written
    = rev (first_frames (frames_until_quit keys) (decodable_frames msgs))
      ++ written.
Proof.
  assert (forall n (l : list (string * list (list Q))) w,
             first_frames (option_map S n) (w :: l) = w :: first_frames n l)
    as Hstep by (intros [k|] l w; reflexivity).
  assert (forall keys, first_frames (frames_until_quit keys)
                                    (@nil (string * list (list Q))) = [])
    as Hnil.
  { intros keys. destruct (frames_until_quit keys) as [k|]; cbn;
      [destruct k|]; reflexivity. }
  induction msgs as [|[t m] rest IH]; intros keys written;
    cbn [extract_frames decodable_frames].
  - rewrite Hnil. reflexivity.
  - destruct m as [lat lon|d|d|data|]; try apply IH.
    destruct (unpack_data_entry data) as [polar|]; [|apply IH].
    destruct keys as [|k keys']; cbn [wait_key frames_until_quit].
    + change (quits (-1)) with false. cbn iota.
      rewrite IH. cbn [frames_until_quit first_frames rev].
      rewrite <- app_assoc. reflexivity.
    + destruct (quits k).
      * destruct (decodable_frames rest); reflexivity.
      * rewrite IH, Hstep. cbn [rev]. rewrite <- app_assoc. reflexivity.
Qed.

End ExtractionFacts.

(** ** More on the frame loop *)

Section MoreLoopFacts.

Context {lib : Libraries}.

(** While some pose field stays unset, sonar messages are passed over. *)
Lemma gated_run args (missing : Poses -> Prop) msgs :
  (forall p, missing p -> none_in_poses p = true) ->
  (forall p m, In m msgs -> missing p -> missing (track p m)) ->
  forall st,
    missing (poses st) ->
    snd (for_messages args st msgs) = None /\
    samples_of (fst (for_messages args st msgs)) = samples_of st /\
    total_raw_frames (fst (for_messages args st msgs)) = total_raw_frames st /\
    processed_frames (fst (for_messages args st msgs)) = processed_frames st.
Proof.
  intros Hgate. induction msgs as [|m rest IH]; intros Hkeep st Hst;
    cbn [for_messages].
  - repeat split.
  - assert (forall p m', In m' rest -> missing p -> missing (track p m'))
      as Hkeep' by (intros p m' Hin; apply Hkeep; right; exact Hin).
    destruct m as [lat lon|d|d|data|].
    1-3, 5:
      rewrite body_nav by (intros ? ?; discriminate);
      apply (IH Hkeep' (with_poses st (track (poses st) _)));
      apply Hkeep; [left; reflexivity | exact Hst].
    rewrite (body_sonar_gated _ _ _ (Hgate _ Hst)). apply IH; assumption.
Qed.

(** X1. A bag that lacks one of the three navigation topics (position,
    compass heading or relative altitude) gives no map: no sonar frame is
    counted, nothing is accumulated, and [main] ends with the
    [no_sonar_data] RuntimeError. The altitude is required although its
    value is never used. *)
Theorem missing_nav_topic_no_map (cl : CommandLine) (msgs : list message) :
  (forall lat lon, ~ In (GlobalPosition lat lon) msgs) \/
  (forall d, ~ In (CompassHdg d) msgs) \/
  (forall d, ~ In (RelAlt d) msgs) ->
  let final := fst (for_messages (parse_args cl) init msgs) in
  total_raw_frames final = 0%Z /\
  samples_of final = ([], [], []) /\
  main cl msgs = Raised (RuntimeError no_sonar_data).
Proof.
  intros H. cbn zeta.
  assert (samples_of (fst (for_messages (parse_args cl) init msgs))
          = samples_of init /\
          total_raw_frames (fst (for_messages (parse_args cl) init msgs))
          = total_raw_frames init) as [Hs Ht].
  { destruct H as [H|[H|H]].
    - destruct (gated_run (parse_args cl) (fun p => easting p = None) msgs)
        with (st := init) as (_ & Hs & Ht & _); try reflexivity.
      + intros p Hp. unfold none_in_poses. rewrite Hp. reflexivity.
      + intros p m Hin Hp. destruct m; cbn; try exact Hp.
        exfalso. apply (H _ _ Hin).
      + split; assumption.
    - destruct (gated_run (parse_args cl) (fun p => heading p = None) msgs)
        with (st := init) as (_ & Hs & Ht & _); try reflexivity.
      + intros p Hp. unfold none_in_poses. rewrite Hp.
        destruct (easting p), (northing p); reflexivity.
      + intros p m Hin Hp. destruct m; cbn; try exact Hp.
        exfalso. apply (H _ Hin).
      + split; assumption.
    - destruct (gated_run (parse_args cl) (fun p => depth p = None) msgs)
        with (st := init) as (_ & Hs & Ht & _); try reflexivity.
      + intros p Hp. unfold none_in_poses. rewrite Hp.
        destruct (easting p), (northing p), (heading p); reflexivity.
      + intros p m Hin Hp. destruct m; cbn; try exact Hp.
        exfalso. apply (H _ Hin).
      + split; assumption. }
  split; [exact Ht|]. split; [exact Hs|].
  unfold main, finish. unfold samples_of in Hs. injection Hs as -> _ _.
  reflexivity.
Qed.

Lemma track_complete p m :
  none_in_poses p = false -> none_in_poses (track p m) = false.
Proof.
  unfold none_in_poses.
  destruct m as [lat lon|d|d|data|]; cbn;
    destruct (easting p), (northing p), (heading p), (depth p);
    intros H; try discriminate H; reflexivity.
Qed.

Lemma eligible_when_complete msgs :
  forall p,
    none_in_poses p = false ->
    eligible_frames p msgs = Z.of_nat (length (filter is_sonar msgs)).
Proof.
  induction msgs as [|m rest IH]; intros p Hp; [reflexivity|].
  cbn [eligible_frames filter]. rewrite (IH _ (track_complete p m Hp)).
  destruct m; cbn [is_sonar length]; try lia. rewrite Hp. lia.
Qed.

Lemma run_poses args msgs :
  forall st,
    none_in_poses (poses st) = false ->
    none_in_poses (poses (fst (for_messages args st msgs))) = false.
Proof.
  induction msgs as [|m rest IH]; intros st Hp; cbn [for_messages];
    [exact Hp|].
  pose proof (body_poses args st m) as Hb.
  destruct (body args st m) as [st' [|]]; cbn [fst] in *.
  - apply IH. rewrite Hb. apply track_complete. exact Hp.
  - rewrite Hb. apply track_complete. exact Hp.
Qed.

Lemma run_counts_eligible args msgs :
  max_frames args = None ->
  forall st,
    total_raw_frames (fst (for_messages args st msgs))
    = (total_raw_frames st + eligible_frames (poses st) msgs)%Z.
Proof.
  intros Hcap. induction msgs as [|m rest IH]; intros st;
    cbn [for_messages eligible_frames]; [cbn; lia|].
  pose proof (body_no_cap args st m Hcap) as Hn.
  pose proof (body_poses args st m) as Hp.
  assert (total_raw_frames (fst (body args st m))
          = (total_raw_frames st
             + match m with
               | OculusRawData _ => if none_in_poses (poses st) then 0 else 1
               | _ => 0
               end)%Z) as Ht.
  { destruct m as [lat lon|d|d|data|].
    1-3, 5: rewrite body_nav by (intros ? ?; discriminate); cbn; lia.
    destruct (none_in_poses (poses st)) eqn:Hg.
    - rewrite (body_sonar_gated _ _ _ Hg). cbn. lia.
    - destruct (body_sonar_full args st data Hg)
        as (e & n & h & d & _ & _ & _ & _ & ->).
      apply sonar_frame_counters. }
  destruct (body args st m) as [st' c]. cbn [fst snd] in *. subst c.
  rewrite IH, Ht, Hp. lia.
Qed.

(** X2. Once the four pose fields are set they stay set to the end of the
    loop, whatever the arguments; and read with no cap, every sonar message
    from then on is counted as a raw frame. *)
Theorem complete_pose_stays_complete (args : Args) (st : LoopState)
        (msgs : list message) :
  none_in_poses (poses st) = false ->
  none_in_poses (poses (fst (for_messages args st msgs))) = false /\
  (max_frames args = None ->
   total_raw_frames (fst (for_messages args st msgs))
   = (total_raw_frames st + Z.of_nat (length (filter is_sonar msgs)))%Z).
Proof.
  intros Hp. split; [apply run_poses; exact Hp|].
  intros Hcap. rewrite run_counts_eligible by exact Hcap.
  rewrite eligible_when_complete by exact Hp. reflexivity.
Qed.

Lemma body_same_but_depth args f s t m :
  same_but_depth s t ->
  same_but_depth (fst (body args s m)) (fst (body args t (redepth f m))) /\
  snd (body args s m) = snd (body args t (redepth f m)).
Proof.
  intros (He & Hn & Hh & Hd & Hs & Ht & Hp).
  unfold samples_of in Hs. injection Hs as Hx Hy Hi.
  assert (forall (s' t' : LoopState) (c c' : control),
             easting (poses s') = easting (poses t') ->
             northing (poses s') = northing (poses t') ->
             heading (poses s') = heading (poses t') ->
             (depth (poses s') = None <-> depth (poses t') = None) ->
             all_xw s' = all_xw t' -> all_yw s' = all_yw t' ->
             all_int s' = all_int t' ->
             total_raw_frames s' = total_raw_frames t' ->
             processed_frames s' = processed_frames t' ->
             c = c' ->
             same_but_depth (fst (s', c)) (fst (t', c')) /\
             snd (s', c) = snd (t', c')) as Hdone.
  { intros s' t' c c' E1 E2 E3 E4 E5 E6 E7 E8 E9 E10.
    unfold same_but_depth, samples_of. cbn [fst snd].
    rewrite E5, E6, E7. repeat split; assumption || apply E4. }
  destruct m as [lat lon|d|d|data|]; cbn [redepth].
  - cbn [body]. destruct (from_latlon lat lon) as [e n].
    apply Hdone; cbn; assumption || reflexivity.
  - cbn [body]. apply Hdone; cbn; assumption || reflexivity.
  - cbn [body]. apply Hdone; cbn; try assumption; try reflexivity.
    split; discriminate.
  - unfold body. rewrite <- He, <- Hn, <- Hh.
    destruct (easting (poses s)) as [e|] eqn:Ee;
      [|apply Hdone; congruence || assumption].
    destruct (northing (poses s)) as [n|] eqn:En;
      [|apply Hdone; congruence || assumption].
    destruct (heading (poses s)) as [h|] eqn:Eh;
      [|apply Hdone; congruence || assumption].
    destruct (depth (poses s)) as [ds|] eqn:Eds,
             (depth (poses t)) as [dt|] eqn:Edt.
    + unfold sonar_frame. rewrite <- Ht, <- Hp, <- Hx, <- Hy, <- Hi.
      assert (depth (poses s) = None <-> depth (poses t) = None) as Hd'
          by (rewrite Eds, Edt; split; discriminate).
      destruct (skipped _ _);
        [apply Hdone; cbn; congruence || assumption|].
      destruct (over_cap _ _);
        [apply Hdone; cbn; congruence || assumption|].
      destruct (unpack_data_entry data);
        apply Hdone; cbn; congruence || assumption.
    + exfalso. destruct Hd as [_ D]. discriminate (D eq_refl).
    + exfalso. destruct Hd as [D _]. discriminate (D eq_refl).
    + apply Hdone; congruence || (rewrite Eds, Edt; split; reflexivity).
  - cbn [body]. apply Hdone; assumption || reflexivity.
Qed.

Lemma run_same_but_depth args f msgs :
  forall s t,
    same_but_depth s t ->
    same_but_depth (fst (for_messages args s msgs))
                   (fst (for_messages args t (map (redepth f) msgs))).
Proof.
  induction msgs as [|m rest IH]; intros s t H;
    cbn [for_messages map]; [exact H|].
  destruct (body_same_but_depth args f s t m H) as [Hst Hc].
  destruct (body args s m) as [s' c], (body args t (redepth f m)) as [t' c'].
  cbn [fst snd] in *. subst c'.
  destruct c; [apply IH; exact Hst | exact Hst].
Qed.

(** X3. The altitude readings gate the loop but never reach the map:
    replacing every [rel_alt] value of a bag by any other value leaves the
    outcome of [main] unchanged. *)
Theorem depth_values_do_not_matter (cl : CommandLine) (f : Q -> Q)
        (msgs : list message) :
  main cl (map (redepth f) msgs) = main cl msgs.
Proof.
  assert (same_but_depth init init) as H0
      by (unfold same_but_depth; repeat split; auto).
  pose proof (run_same_but_depth (parse_args cl) f msgs init init H0)
    as (_ & _ & _ & _ & Hs & _).
  unfold samples_of in Hs. injection Hs as Hx Hy Hi.
  unfold main, finish. rewrite <- Hx, <- Hy, <- Hi. reflexivity.
Qed.

End MoreLoopFacts.

Section RunFacts.

Context {lib : Libraries}.

Lemma hstack_snoc (l : list (list Q)) (x : list Q) :
  length (hstack (l ++ [x])) = (length (hstack l) + length x)%nat.
Proof.
  unfold hstack. rewrite concat_app, length_app. cbn [concat].
  rewrite app_nil_r. reflexivity.
Qed.

Lemma body_aligned args st m :
  (forall data polar,
      unpack_data_entry data = Some polar -> same_shape (polar_to_cart polar)) ->
  aligned st -> aligned (fst (body args st m)).
Proof.
  intros Hshape Hal.
  destruct m as [lat lon|d|d|data|].
  1-3, 5: rewrite body_nav by (intros ? ?; discriminate); exact Hal.
  destruct (none_in_poses (poses st)) eqn:Hp.
  - rewrite (body_sonar_gated _ _ _ Hp). exact Hal.
  - destruct (body_sonar_full args st data Hp)
      as (e & n & h & d & _ & _ & _ & _ & ->).
    unfold sonar_frame.
    destruct (skipped _ _); [exact Hal|].
    destruct (over_cap _ _); [exact Hal|].
    destruct (unpack_data_entry data) as [polar|] eqn:Hu; [|exact Hal].
    destruct (Hshape data polar Hu) as [Sy Si].
    destruct Hal as (A1 & A2 & A3 & A4).
    unfold aligned. cbn [fst all_xw all_yw all_int].
    rewrite !length_app, !hstack_snoc. cbn [length].
    rewrite world_x_length, world_y_length by (symmetry; exact Sy).
    repeat split; lia.
Qed.

Lemma build_map_lengths_checked res axw ayw aint e :
  length (hstack ayw) = length (hstack axw) ->
  length (hstack aint) = length (hstack axw) ->
  build_map res axw ayw aint = inl e ->
  e <> ValueError "x and y must have the same length." /\
  e <> ValueError "The weights and list don't have the same length.".
Proof.
  intros Hy Hi. unfold build_map.
  destruct (array_min (hstack axw)) as [q|],
    (array_max (hstack axw)) as [q0|],
    (array_min (hstack ayw)) as [q1|],
    (array_max (hstack ayw)) as [q2|];
    try (intros [= <-]; split; discriminate).
  destruct (int_ceil_div q0 q res) as [ex|nx] eqn:Ex.
  { destruct (int_ceil_div_exceptions _ _ _ _ Ex) as [->| ->];
      intros [= <-]; split; discriminate. }
  destruct (int_ceil_div q2 q1 res) as [ey|ny] eqn:Ey.
  { destruct (int_ceil_div_exceptions _ _ _ _ Ey) as [->| ->];
      intros [= <-]; split; discriminate. }
  unfold histogram2d, get_outer_edges.
  rewrite Hy, Hi, length_map, !Nat.eqb_refl. cbn [negb].
  destruct (_ <? 1)%Z; [intros [= <-]; split; discriminate|].
  destruct (Qle_bool q q0); [|intros [= <-]; split; discriminate].
  destruct (_ <? 1)%Z;
    [destruct (Qeq_bool q q0); intros [= <-]; split; discriminate|].
  destruct (Qle_bool q1 q2);
    [|destruct (Qeq_bool q q0); intros [= <-]; split; discriminate].
  destruct (Qeq_bool q q0), (Qeq_bool q1 q2); discriminate.
Qed.

(** X4. When every decoded frame holds one x, one y and one intensity per
    pixel, the three accumulated lists keep the same number of batches and
    the same number of samples through the whole loop, so the histogram is
    never refused for sequences of different lengths. *)
Theorem samples_stay_aligned (cl : CommandLine) (msgs : list message) :
  (forall data polar,
      unpack_data_entry data = Some polar -> same_shape (polar_to_cart polar)) ->
  aligned (fst (for_messages (parse_args cl) init msgs)) /\
  main cl msgs <> Raised (ValueError "x and y must have the same length.") /\
  main cl msgs
  <> Raised (ValueError "The weights and list don't have the same length.").
Proof.
  intros Hshape.
  assert (forall l st, aligned st ->
                       aligned (fst (for_messages (parse_args cl) st l)))
    as Hrun.
  { induction l as [|m rest IH]; intros st Hal; cbn [for_messages];
      [exact Hal|].
    pose proof (body_aligned (parse_args cl) st m Hshape Hal) as Hb.
    destruct (body (parse_args cl) st m) as [st' [|]]; cbn [fst] in *;
      [apply IH; exact Hb | exact Hb]. }
  assert (aligned (fst (for_messages (parse_args cl) init msgs))) as Hal
      by (apply Hrun; repeat split).
  split; [exact Hal|].
  destruct Hal as (_ & _ & A3 & A4).
  unfold main, finish.
  destruct (all_xw (fst (for_messages (parse_args cl) init msgs)))
    as [|b bs] eqn:Hx; [split; discriminate|].
  destruct (build_map _ _ _ _) as [e|m] eqn:Hb; [|split; discriminate].
  destruct (build_map_lengths_checked _ _ _ _ _ A3 A4 Hb) as [N1 N2].
  split; intros [= E]; [apply N1 | apply N2]; exact E.
Qed.


Lemma build_map_exceptions res axw ayw aint e :
  build_map res axw ayw aint = inl e ->
  exists msg, e = ValueError msg \/ e = OverflowError msg.
Proof.
  unfold build_map.
  destruct (array_min (hstack axw)) as [q|],
    (array_max (hstack axw)) as [q0|],
    (array_min (hstack ayw)) as [q1|],
    (array_max (hstack ayw)) as [q2|];
    try (intros [= <-]; eexists; left; reflexivity).
  destruct (int_ceil_div q0 q res) as [ex|nx] eqn:Ex.
  { destruct (int_ceil_div_exceptions _ _ _ _ Ex) as [->| ->];
      intros [= <-]; eexists; [right | left]; reflexivity. }
  destruct (int_ceil_div q2 q1 res) as [ey|ny] eqn:Ey.
  { destruct (int_ceil_div_exceptions _ _ _ _ Ey) as [->| ->];
      intros [= <-]; eexists; [right | left]; reflexivity. }
  unfold histogram2d, get_outer_edges.
  destruct (negb _); [intros [= <-]; eexists; left; reflexivity|].
  destruct (_ <? 1)%Z; [intros [= <-]; eexists; left; reflexivity|].
  destruct (Qle_bool q q0); [|intros [= <-]; eexists; left; reflexivity].
  destruct (_ <? 1)%Z;
    [destruct (Qeq_bool q q0); intros [= <-]; eexists; left; reflexivity|].
  destruct (Qle_bool q1 q2);
    [|destruct (Qeq_bool q q0); intros [= <-]; eexists; left; reflexivity].
  destruct (Qeq_bool q q0), (Qeq_bool q1 q2);
    (destruct (negb _); [intros [= <-]; eexists; left; reflexivity|]);
    rewrite length_map, Nat.eqb_refl; discriminate.
Qed.

(** X10. The [no_sonar_data] RuntimeError is raised exactly when no batch
    was accumulated. The guard looks at the batches, not at the samples: a
    run whose accepted frames decode to no pixel at all passes it and ends
    with the ValueError of the minimum of an empty array. *)
Theorem empty_guard_counts_batches (cl : CommandLine) (msgs : list message) :
  let final := fst (for_messages (parse_args cl) init msgs) in
  (main cl msgs = Raised (RuntimeError no_sonar_data) <-> all_xw final = []) /\
  (all_xw final <> [] -> hstack (all_xw final) = [] ->
   main cl msgs = Raised (ValueError zero_size)).
Proof.
  cbn zeta. unfold main, finish.
  destruct (all_xw (fst (for_messages (parse_args cl) init msgs)))
    as [|b bs] eqn:Hx.
  - split; [split; reflexivity|]. intros H. exfalso. apply H. reflexivity.
  - split.
    + split; [|discriminate].
      destruct (build_map _ _ _ _) as [e|m] eqn:Hb; [|discriminate].
      destruct (build_map_exceptions _ _ _ _ _ Hb) as [msg [-> | ->]];
        discriminate.
    + intros _ Hempty. unfold build_map. rewrite Hempty. reflexivity.
Qed.

(** X11. A cap that the run never reaches changes nothing: when the loop
    read without a cap counts at most [c] processed frames, [main] with
    [--max-frames c] ends as [main] without it. *)
Theorem unreached_cap_changes_nothing (cl : CommandLine) (c : Z)
        (msgs : list message) :
  opt_max_frames cl = Some c ->
  (processed_frames
     (fst (for_messages (parse_args (without_cap cl)) init msgs)) <= c)%Z ->
  main cl msgs = main (without_cap cl) msgs.
Proof.
  intros Hc Hle. unfold main.
  change (parse_args (without_cap cl)) with (uncapped (parse_args cl)) in *.
  rewrite (for_messages_capped_agrees (parse_args cl) c msgs Hc init Hle).
  reflexivity.
Qed.

End RunFacts.

(** ** More on the grid *)

Lemma histogram2d_success x y nx ny range weights r :
  histogram2d x y (nx, ny) range weights = inr r ->
  length x = length y /\ (1 <= nx)%Z /\ (1 <= ny)%Z /\
  (forall w, weights = Some w -> length w = length x).
Proof.
  unfold histogram2d. destruct range as [rx ry].
  destruct (Nat.eqb_spec (length x) (length y)) as [Hl|]; cbn [negb];
    [|discriminate].
  destruct (Z.ltb_spec nx 1) as [|Hnx]; [discriminate|].
  destruct (get_outer_edges rx) as [|[x0 x1]]; [discriminate|].
  destruct (Z.ltb_spec ny 1) as [|Hny]; [discriminate|].
  destruct (get_outer_edges ry) as [|[y0 y1]]; [discriminate|].
  destruct (Nat.eqb_spec (length match weights with
                                 | Some w => w
                                 | None => map (fun _ => 1) x
                                 end) (length x)) as [Hw|]; cbn [negb];
    [|discriminate].
  intros _. repeat split; try assumption.
  intros w ->. exact Hw.
Qed.

(** Every map the script builds comes from samples of one length whose
    two bin counts are at least 1, hence from a positive resolution and from
    samples that span an interval on both axes, and it has the form that
    [build_map_ok] gives. *)
Lemma build_map_explicit_bounds res axw ayw aint m :
  build_map res axw ayw aint = inr m ->
  exists xmin xmax ymin ymax,
    array_min (hstack axw) = Some xmin /\ array_max (hstack axw) = Some xmax /\
    array_min (hstack ayw) = Some ymin /\ array_max (hstack ayw) = Some ymax /\
    length (hstack ayw) = length (hstack axw) /\
    length (hstack aint) = length (hstack axw) /\
    (1 <= bin_count xmax xmin res)%Z /\ (1 <= bin_count ymax ymin res)%Z /\
    0 < res /\ xmin < xmax /\ ymin < ymax /\
    let nx := Z.to_nat (bin_count xmax xmin res) in
    let ny := Z.to_nat (bin_count ymax ymin res) in
    let xe := linspace xmin xmax nx in
    let ye := linspace ymin ymax ny in
    let pts := combine (hstack axw) (hstack ayw) in
    let cnt := core_hist xe ye nx ny
                         (combine pts (map (fun _ => 1) (hstack axw))) in
    (1 <= nx)%nat /\ (1 <= ny)%nat /\
    m = mkMap (divide_masked
                 (core_hist xe ye nx ny (combine pts (hstack aint))) cnt)
              cnt xe ye (xmin, xmax, ymin, ymax).
Proof.
  intros Hb. pose proof Hb as Hb0. unfold build_map in Hb.
  destruct (array_min (hstack axw)) as [xmin|] eqn:Hxmin; [|discriminate].
  destruct (array_max (hstack axw)) as [xmax|] eqn:Hxmax; [|discriminate].
  destruct (array_min (hstack ayw)) as [ymin|] eqn:Hymin; [|discriminate].
  destruct (array_max (hstack ayw)) as [ymax|] eqn:Hymax; [|discriminate].
  destruct (int_ceil_div xmax xmin res) as [|nx] eqn:Ex; [discriminate Hb|].
  destruct (int_ceil_div ymax ymin res) as [|ny] eqn:Ey; [discriminate Hb|].
  destruct (histogram2d _ _ _ _ (Some _)) as [|r] eqn:H1; [discriminate Hb|].
  destruct (histogram2d_success _ _ _ _ _ _ _ H1) as (Hl & Hnx & Hny & Hw).
  clear Hb.
  assert (bin_count xmax xmin res = nx) as Bx
      by (unfold bin_count; rewrite Ex; reflexivity).
  assert (bin_count ymax ymin res = ny) as By
      by (unfold bin_count; rewrite Ey; reflexivity).
  rewrite <- Bx in Hnx. rewrite <- By in Hny.
  assert (length (hstack aint) = length (hstack axw)) as Hli
      by (apply Hw; reflexivity).
  destruct (build_map_ok res axw ayw aint xmin xmax ymin ymax
                         Hxmin Hxmax Hymin Hymax (eq_sym Hl) Hli Hnx Hny)
    as (Hres & Hx & Hy & N1 & N2 & Hok).
  exists xmin, xmax, ymin, ymax.
  do 4 (split; [reflexivity|]).
  split; [symmetry; exact Hl|]. split; [exact Hli|].
  do 5 (split; [assumption|]).
  cbn zeta. split; [exact N1|]. split; [exact N2|].
  rewrite Hok in Hb0. injection Hb0 as <-. reflexivity.
Qed.

Lemma build_map_explicit res axw ayw aint m :
  build_map res axw ayw aint = inr m ->
  exists xmin xmax ymin ymax,
    minimum_of xmin (hstack axw) /\ maximum_of xmax (hstack axw) /\
    minimum_of ymin (hstack ayw) /\ maximum_of ymax (hstack ayw) /\
    length (hstack ayw) = length (hstack axw) /\
    length (hstack aint) = length (hstack axw) /\
    0 < res /\ xmin < xmax /\ ymin < ymax /\
    let nx := Z.to_nat (bin_count xmax xmin res) in
    let ny := Z.to_nat (bin_count ymax ymin res) in
    let xe := linspace xmin xmax nx in
    let ye := linspace ymin ymax ny in
    let pts := combine (hstack axw) (hstack ayw) in
    let cnt := core_hist xe ye nx ny
                         (combine pts (map (fun _ => 1) (hstack axw))) in
    (1 <= nx)%nat /\ (1 <= ny)%nat /\
    m = mkMap (divide_masked
                 (core_hist xe ye nx ny (combine pts (hstack aint))) cnt)
              cnt xe ye (xmin, xmax, ymin, ymax).
Proof.
  intros Hb.
  destruct (build_map_explicit_bounds _ _ _ _ _ Hb)
    as (xmin & xmax & ymin & ymax & Hxmin & Hxmax & Hymin & Hymax
        & Hly & Hli & _ & _ & H).
  exists xmin, xmax, ymin, ymax.
  split; [apply array_min_spec; exact Hxmin|].
  split; [apply array_max_spec; exact Hxmax|].
  split; [apply array_min_spec; exact Hymin|].
  split; [apply array_max_spec; exact Hymax|].
  split; [exact Hly|]. split; [exact Hli|].
  exact H.
Qed.

(** X6. [build_map] returns a map exactly when the three sequences have one
    length, the samples are not empty and both bin counts of lines 135-136,
    computed in float64 from the bounding box, are at least 1. A map is
    built only for a positive
    resolution and samples that differ in x and differ in y. *)
Theorem build_map_succeeds_iff (res : Q) (axw ayw aint : list (list Q)) :
  ((exists m, build_map res axw ayw aint = inr m) <->
   length (hstack ayw) = length (hstack axw) /\
   length (hstack aint) = length (hstack axw) /\
   exists xmin xmax ymin ymax,
     array_min (hstack axw) = Some xmin /\ array_max (hstack axw) = Some xmax /\
     array_min (hstack ayw) = Some ymin /\ array_max (hstack ayw) = Some ymax /\
     (1 <= bin_count xmax xmin res)%Z /\ (1 <= bin_count ymax ymin res)%Z) /\
  ((exists m, build_map res axw ayw aint = inr m) ->
   0 < res /\
   (exists a b, In a (hstack axw) /\ In b (hstack axw) /\ a < b) /\
   (exists a b, In a (hstack ayw) /\ In b (hstack ayw) /\ a < b)).
Proof.
  split; [split|].
  - intros [m Hb].
    destruct (build_map_explicit_bounds _ _ _ _ _ Hb)
      as (xmin & xmax & ymin & ymax & Hxmin & Hxmax & Hymin & Hymax
          & Hly & Hli & Bx & By & _).
    split; [exact Hly|]. split; [exact Hli|].
    exists xmin, xmax, ymin, ymax. repeat split; assumption.
  - intros (Hly & Hli & xmin & xmax & ymin & ymax
            & Hxmin & Hxmax & Hymin & Hymax & Bx & By).
    destruct (build_map_ok res axw ayw aint xmin xmax ymin ymax
                           Hxmin Hxmax Hymin Hymax Hly Hli Bx By)
      as (_ & _ & _ & _ & _ & Hok).
    eexists. exact Hok.
  - intros [m Hb].
    destruct (build_map_explicit _ _ _ _ _ Hb)
      as (xmin & xmax & ymin & ymax & Sxmin & Sxmax & Symin & Symax
          & Hly & Hli & Hres & Hx & Hy & _).
    split; [exact Hres|]. split.
    + exists xmin, xmax. repeat split;
        [apply Sxmin | apply Sxmax | exact Hx].
    + exists ymin, ymax. repeat split;
        [apply Symin | apply Symax | exact Hy].
Qed.

(** *** Sums over the grid *)

Lemma Qsum_app l1 l2 : Qsum (l1 ++ l2) == Qsum l1 + Qsum l2.
Proof.
  unfold Qsum. induction l1 as [|x l1 IH]; cbn [app fold_right]; [ring|].
  rewrite IH. ring.
Qed.

Lemma sum_upto_S n f : sum_upto (S n) f == sum_upto n f + f n.
Proof.
  unfold sum_upto. rewrite seq_S, map_app, Qsum_app.
  unfold Qsum. cbn [map fold_right plus]. ring.
Qed.

Lemma sum_upto_ext n f g :
  (forall i, (i < n)%nat -> f i == g i) -> sum_upto n f == sum_upto n g.
Proof.
  induction n as [|n IH]; intros H; [reflexivity|].
  rewrite !sum_upto_S, IH, (H n) by (intros; try apply H; lia). reflexivity.
Qed.

Lemma sum_upto_plus n f g :
  sum_upto n (fun i => f i + g i) == sum_upto n f + sum_upto n g.
Proof.
  induction n as [|n IH]; [cbn; ring|]. rewrite !sum_upto_S, IH. ring.
Qed.

Lemma sum_upto_zero n : sum_upto n (fun _ => 0) == 0.
Proof.
  induction n as [|n IH]; [reflexivity|]. rewrite sum_upto_S, IH. ring.
Qed.

Lemma sum_upto_indicator n k w :
  (k < n)%nat -> sum_upto n (fun i => if (i =? k)%nat then w else 0) == w.
Proof.
  induction n as [|n IH]; intros Hk; [lia|].
  rewrite sum_upto_S. destruct (Nat.eq_dec k n) as [->|Hne].
  - rewrite Nat.eqb_refl.
    rewrite (sum_upto_ext n _ (fun _ => 0)), sum_upto_zero; [ring|].
    intros i Hi. destruct (Nat.eqb_spec i n); [lia | reflexivity].
  - rewrite IH by lia. destruct (Nat.eqb_spec n k); [lia | ring].
Qed.

Lemma grid_total_core_hist xe ye nx ny l :
  grid_total (core_hist xe ye nx ny l)
  = sum_upto nx (fun i =>
      sum_upto ny (fun j => Qsum (map snd (samples_in xe ye i j l)))).
Proof.
  unfold grid_total, core_hist, sum_upto. rewrite map_map. reflexivity.
Qed.

Lemma cell_sum_cons xe ye i j (s : sample) l :
  Qsum (map snd (samples_in xe ye i j (s :: l)))
  == (if in_cell xe ye i j (fst (fst s)) (snd (fst s)) then snd s else 0)
     + Qsum (map snd (samples_in xe ye i j l)).
Proof.
  unfold samples_in, Qsum. cbn [filter].
  destruct (in_cell xe ye i j (fst (fst s)) (snd (fst s)));
    cbn [map fold_right]; ring.
Qed.

(** When every sample has a cell, the cells add up to the sum of the
    weights: nothing is dropped and nothing is counted twice. *)
Lemma hist_total xe ye nx ny (l : list sample) :
  (forall s, In s l ->
     exists i j, (i < nx)%nat /\ (j < ny)%nat /\
                 bin_number xe (fst (fst s)) = (Z.of_nat i + 1)%Z /\
                 bin_number ye (snd (fst s)) = (Z.of_nat j + 1)%Z) ->
  grid_total (core_hist xe ye nx ny l) == Qsum (map snd l).
Proof.
  rewrite grid_total_core_hist.
  induction l as [|s l IH]; intros Hin.
  - cbn [map Qsum fold_right samples_in filter].
    rewrite (sum_upto_ext nx _ (fun _ => 0)), sum_upto_zero; [reflexivity|].
    intros i _. apply sum_upto_zero.
  - destruct (Hin s (or_introl eq_refl)) as (i0 & j0 & Hi0 & Hj0 & Bi & Bj).
    rewrite (sum_upto_ext nx _
               (fun i => (if (i =? i0)%nat then snd s else 0)
                         + sum_upto ny (fun j =>
                             Qsum (map snd (samples_in xe ye i j l))))).
    + rewrite sum_upto_plus, sum_upto_indicator by exact Hi0.
      rewrite IH by (intros s' Hs'; apply Hin; right; exact Hs').
      unfold Qsum. cbn [map fold_right]. reflexivity.
    + intros i Hi.
      rewrite (sum_upto_ext ny _
                 (fun j => (if ((i =? i0) && (j =? j0))%nat
                            then snd s else 0)
                           + Qsum (map snd (samples_in xe ye i j l)))).
      * rewrite sum_upto_plus. apply Qplus_comp; [|reflexivity].
        destruct (i =? i0)%nat; cbn [andb];
          [apply sum_upto_indicator; exact Hj0 | apply sum_upto_zero].
      * intros j Hj. rewrite cell_sum_cons.
        apply Qplus_comp; [|reflexivity].
        unfold in_cell. rewrite Bi, Bj.
        replace (Z.of_nat i0 + 1 =? Z.of_nat i + 1)%Z with (i =? i0)%nat
          by (destruct (Nat.eqb_spec i i0), (Z.eqb_spec (Z.of_nat i0 + 1)
                                                        (Z.of_nat i + 1));
              reflexivity || lia).
        replace (Z.of_nat j0 + 1 =? Z.of_nat j + 1)%Z with (j =? j0)%nat
          by (destruct (Nat.eqb_spec j j0), (Z.eqb_spec (Z.of_nat j0 + 1)
                                                        (Z.of_nat j + 1));
              reflexivity || lia).
        reflexivity.
Qed.

Lemma map_snd_combine {A : Type} (l : list A) :
  forall w : list Q, length w = length l -> map snd (combine l w) = w.
Proof.
  induction l as [|a l IH]; intros [|x w] H; cbn in *; try discriminate;
    [reflexivity|].
  f_equal. apply IH. lia.
Qed.

Lemma Qsum_ones (xs : list Q) :
  Qsum (map (fun _ => 1) xs) == inject_Z (Z.of_nat (length xs)).
Proof.
  unfold Qsum. induction xs as [|x xs IH]; [reflexivity|].
  cbn [map fold_right length].
  rewrite IH, Nat2Z.inj_succ. unfold Z.succ. rewrite inject_Z_plus. ring.
Qed.

Lemma samples_have_cells xw yw w xmin xmax ymin ymax nx ny :
  minimum_of xmin xw -> maximum_of xmax xw ->
  minimum_of ymin yw -> maximum_of ymax yw ->
  xmin < xmax -> ymin < ymax -> (1 <= nx)%nat -> (1 <= ny)%nat ->
  forall s : sample,
    In s (combine (combine xw yw) w) ->
    exists i j,
      (i < nx)%nat /\ (j < ny)%nat /\
      bin_number (linspace xmin xmax nx) (fst (fst s)) = (Z.of_nat i + 1)%Z /\
      bin_number (linspace ymin ymax ny) (snd (fst s)) = (Z.of_nat j + 1)%Z.
Proof.
  intros Sxmin Sxmax Symin Symax Hx Hy Hnx Hny s Hs.
  destruct (in_samples_coords _ _ _ _ Hs) as [Hsx Hsy].
  destruct (bin_number_linspace xmin xmax nx (fst (fst s)) Hnx Hx
              (proj2 Sxmin _ Hsx) (proj2 Sxmax _ Hsx)) as (i & Hi & Ei & _).
  destruct (bin_number_linspace ymin ymax ny (snd (fst s)) Hny Hy
              (proj2 Symin _ Hsy) (proj2 Symax _ Hsy)) as (j & Hj & Ej & _).
  exists i, j. repeat split; assumption.
Qed.

(** The count of a cell is the number of samples in it, and a cell with no
    positive count has an empty sum. *)
Lemma cell_count_and_sum xe ye nx ny (xw yw int : list Q) i j :
  length yw = length xw -> length int = length xw ->
  (i < nx)%nat -> (j < ny)%nat ->
  let pts := combine xw yw in
  let inside := samples_in xe ye i j (combine pts int) in
  let c := cell (core_hist xe ye nx ny
                           (combine pts (map (fun _ => 1) xw))) i j in
  let s := cell (core_hist xe ye nx ny (combine pts int)) i j in
  c == inject_Z (Z.of_nat (length inside)) /\
  s = Qsum (map snd inside) /\
  (inside <> [] -> 0 < c) /\
  (~ 0 < c -> inside = []).
Proof.
  intros Hly Hli Hi Hj. cbn zeta.
  assert (cell (core_hist xe ye nx ny
                          (combine (combine xw yw) (map (fun _ => 1) xw))) i j
          == inject_Z (Z.of_nat (length (samples_in xe ye i j
                                          (combine (combine xw yw) int)))))
    as Hc.
  { rewrite cell_core_hist by assumption. unfold samples_in.
    apply (unit_weights_count
             (fun p => in_cell xe ye i j (fst p) (snd p)));
      rewrite length_combine; lia. }
  split; [exact Hc|]. split; [apply cell_core_hist; assumption|].
  split.
  - intros Hne. rewrite Hc. apply inject_nat_pos.
    destruct (samples_in xe ye i j (combine (combine xw yw) int));
      [congruence | cbn; lia].
  - intros Hn.
    destruct (samples_in xe ye i j (combine (combine xw yw) int)) eqn:E;
      [reflexivity|].
    exfalso. apply Hn. rewrite Hc. apply inject_nat_pos. cbn. lia.
Qed.

(** X7. Binning conserves the samples: over the whole grid the counts add
    up to the number of samples; none is dropped as an outlier, none is
    counted twice. *)
Theorem binning_conserves_samples (res : Q) (axw ayw aint : list (list Q))
        (m : SeabedMap) :
  build_map res axw ayw aint = inr m ->
  grid_total (counts m) == inject_Z (Z.of_nat (length (hstack axw))).
Proof.
  intros Hb.
  destruct (build_map_explicit _ _ _ _ _ Hb)
    as (xmin & xmax & ymin & ymax & Sxmin & Sxmax & Symin & Symax
        & Hly & Hli & Hres & Hx & Hy & Hnx & Hny & ->).
  cbn [counts heatmap].
  set (nx := Z.to_nat (bin_count xmax xmin res)) in *.
  set (ny := Z.to_nat (bin_count ymax ymin res)) in *.
  set (xe := linspace xmin xmax nx) in *.
  set (ye := linspace ymin ymax ny) in *.
  set (xw := hstack axw) in *. set (yw := hstack ayw) in *.
  set (ones := map (fun _ : Q => 1) xw).
  assert (length (combine xw yw) = length xw) as Hpts
      by (rewrite length_combine; lia).
  rewrite hist_total
    by (apply (samples_have_cells xw yw ones xmin xmax ymin ymax);
        assumption).
  rewrite map_snd_combine by (unfold ones; rewrite length_map; lia).
  apply Qsum_ones.
Qed.

Lemma Qsum_bounds lo hi l :
  (forall w, In w l -> lo <= w /\ w <= hi) ->
  inject_Z (Z.of_nat (length l)) * lo <= Qsum l /\
  Qsum l <= inject_Z (Z.of_nat (length l)) * hi.
Proof.
  unfold Qsum. induction l as [|x l IH]; intros H.
  - cbn [length fold_right Z.of_nat]. change (inject_Z 0) with 0.
    split; lra.
  - cbn [length fold_right].
    rewrite Nat2Z.inj_succ. unfold Z.succ. rewrite inject_Z_plus.
    destruct (H x (or_introl eq_refl)) as [H1 H2].
    destruct IH as [I1 I2]; [intros w Hw; apply H; right; exact Hw|].
    change (inject_Z 1) with 1. split; lra.
Qed.

(** X8. A cell that holds samples stores a value between the smallest and
    the largest intensity: when every intensity lies in [lo, hi], so does
    the mean of every covered cell. *)
Theorem covered_cell_within_range (res : Q) (axw ayw aint : list (list Q))
        (m : SeabedMap) (lo hi : Q) :
  build_map res axw ayw aint = inr m ->
  (forall w, In w (hstack aint) -> lo <= w /\ w <= hi) ->
  forall i j,
    0 < cell (counts m) i j ->
    lo <= cell (heatmap m) i j /\ cell (heatmap m) i j <= hi.
Proof.
  intros Hb Hrange i j Hcov.
  destruct (build_map_explicit _ _ _ _ _ Hb)
    as (xmin & xmax & ymin & ymax & _ & _ & _ & _
        & Hly & Hli & _ & _ & _ & _ & _ & ->).
  cbn [counts heatmap] in *.
  set (nx := Z.to_nat (bin_count xmax xmin res)) in *.
  set (ny := Z.to_nat (bin_count ymax ymin res)) in *.
  set (xe := linspace xmin xmax nx) in *.
  set (ye := linspace ymin ymax ny) in *.
  assert ((i < nx)%nat /\ (j < ny)%nat) as [Hi Hj].
  { destruct (Nat.lt_ge_cases i nx) as [Hi|Hi];
      [destruct (Nat.lt_ge_cases j ny) as [Hj|Hj]; [split; assumption|]|];
      exfalso; revert Hcov; rewrite cell_outside_row.
    - apply Qlt_irrefl.
    - rewrite core_hist_row by exact Hi. exact Hj.
    - apply Qlt_irrefl.
    - rewrite nth_overflow by (rewrite core_hist_length; exact Hi).
      cbn. lia. }
  destruct (cell_count_and_sum xe ye nx ny _ _ _ i j Hly Hli Hi Hj)
    as (Hc & Hs & _ & _).
  rewrite cell_divide_masked;
    rewrite ?core_hist_length, ?core_hist_row by exact Hi; try assumption.
  assert (Qlt_bool 0 (cell (core_hist xe ye nx ny
                             (combine (combine (hstack axw) (hstack ayw))
                                      (map (fun _ => 1) (hstack axw)))) i j)
          = true) as -> by (apply Qlt_bool_iff; exact Hcov).
  rewrite Hs.
  destruct (Qsum_bounds lo hi
              (map snd (samples_in xe ye i j
                          (combine (combine (hstack axw) (hstack ayw))
                                   (hstack aint))))) as [B1 B2].
  { intros w Hw. apply in_map_iff in Hw. destruct Hw as (s & <- & Hs').
    apply filter_In in Hs'. destruct Hs' as [Hs' _].
    apply Hrange. destruct s as [p w]. eapply in_combine_r. exact Hs'. }
  rewrite length_map in B1, B2. rewrite <- Hc in B1, B2.
  split; [apply Qle_shift_div_l | apply Qle_shift_div_r]; try exact Hcov;
    lra.
Qed.

(** *** The same samples twice *)

Lemma Qmin_absorb m y : m <= y -> Qmin m y = m.
Proof.
  intros H. apply (proj1 (Qle_alt _ _)) in H. unfold Qmin, GenericMinMax.gmin.
  destruct (m ?= y); congruence.
Qed.

Lemma Qmax_absorb m y : y <= m -> Qmax m y = m.
Proof.
  intros H. apply (proj1 (Qge_alt _ _)) in H. unfold Qmax, GenericMinMax.gmax.
  destruct (m ?= y); congruence.
Qed.

Lemma fold_min_absorb l :
  forall m, (forall y, In y l -> m <= y) -> fold_left Qmin l m = m.
Proof.
  induction l as [|a l IH]; intros m H; cbn [fold_left]; [reflexivity|].
  rewrite Qmin_absorb by (apply H; left; reflexivity).
  apply IH. intros y Hy. apply H. right. exact Hy.
Qed.

Lemma fold_max_absorb l :
  forall m, (forall y, In y l -> y <= m) -> fold_left Qmax l m = m.
Proof.
  induction l as [|a l IH]; intros m H; cbn [fold_left]; [reflexivity|].
  rewrite Qmax_absorb by (apply H; left; reflexivity).
  apply IH. intros y Hy. apply H. right. exact Hy.
Qed.

Lemma array_min_twice l m : array_min l = Some m -> array_min (l ++ l) = Some m.
Proof.
  intros H. pose proof (array_min_spec _ _ H) as [_ Hle].
  destruct l as [|x r]; [discriminate|].
  cbn in H. injection H as H. cbn [app array_min].
  rewrite fold_left_app, H. f_equal. apply fold_min_absorb. exact Hle.
Qed.

Lemma array_max_twice l m : array_max l = Some m -> array_max (l ++ l) = Some m.
Proof.
  intros H. pose proof (array_max_spec _ _ H) as [_ Hle].
  destruct l as [|x r]; [discriminate|].
  cbn in H. injection H as H. cbn [app array_max].
  rewrite fold_left_app, H. f_equal. apply fold_max_absorb. exact Hle.
Qed.

Lemma combine_app {A B : Type} (a : list A) :
  forall (b : list B) a' b',
    length a = length b ->
    combine (a ++ a') (b ++ b') = combine a b ++ combine a' b'.
Proof.
  induction a as [|x a IH]; intros [|y b] a' b' H; cbn in *;
    try discriminate; [reflexivity|].
  f_equal. apply IH. lia.
Qed.

Lemma hstack_app a b : hstack (a ++ b) = hstack a ++ hstack b.
Proof. apply concat_app. Qed.

Lemma cell_outside (g : list (list Q)) nx ny i j :
  length g = nx -> (forall k, (k < nx)%nat -> length (nth k g []) = ny) ->
  ~ ((i < nx)%nat /\ (j < ny)%nat) -> cell g i j = 0.
Proof.
  intros Hl Hrow Hout. apply cell_outside_row.
  destruct (Nat.lt_ge_cases i nx) as [Hi|Hi].
  - rewrite Hrow by exact Hi. lia.
  - rewrite nth_overflow by lia. cbn. lia.
Qed.

Lemma hist_cells_outside xe ye nx ny l l' i j :
  ~ ((i < nx)%nat /\ (j < ny)%nat) ->
  cell (core_hist xe ye nx ny l) i j = 0 /\
  cell (divide_masked (core_hist xe ye nx ny l') (core_hist xe ye nx ny l))
       i j = 0.
Proof.
  intros Hout. split; apply (cell_outside _ nx ny); try exact Hout.
  - apply core_hist_length.
  - intros k Hk. apply core_hist_row. exact Hk.
  - rewrite divide_masked_length; rewrite !core_hist_length; reflexivity.
  - intros k Hk.
    rewrite divide_masked_row;
      rewrite ?core_hist_length, ?core_hist_row by exact Hk;
      try exact Hk; reflexivity.
Qed.

Lemma cell_twice xe ye nx ny (l : list sample) i j :
  (i < nx)%nat -> (j < ny)%nat ->
  cell (core_hist xe ye nx ny (l ++ l)) i j
  == 2 * cell (core_hist xe ye nx ny l) i j.
Proof.
  intros Hi Hj. rewrite !cell_core_hist by assumption.
  unfold samples_in, sample in *. rewrite filter_app, map_app, Qsum_app.
  ring.
Qed.

(** X9. Accumulating every batch twice changes no mean: the map built from
    the doubled lists has the same extent and the same edges, twice the
    count in every cell, and the same value in every cell. *)
Theorem doubled_samples_same_means (res : Q) (axw ayw aint : list (list Q))
        (m : SeabedMap) :
  build_map res axw ayw aint = inr m ->
  exists m',
    build_map res (axw ++ axw) (ayw ++ ayw) (aint ++ aint) = inr m' /\
    extent m' = extent m /\ xedges m' = xedges m /\ yedges m' = yedges m /\
    forall i j,
      cell (counts m') i j == 2 * cell (counts m) i j /\
      cell (heatmap m') i j == cell (heatmap m) i j.
Proof.
  intros Hb.
  destruct (build_map_explicit_bounds _ _ _ _ _ Hb)
    as (xmin & xmax & ymin & ymax & Hxmin & Hxmax & Hymin & Hymax
        & Hly & Hli & Bx & By & Hres & Hx & Hy & Hnx & Hny & ->).
  destruct (build_map_ok res (axw ++ axw) (ayw ++ ayw) (aint ++ aint)
                         xmin xmax ymin ymax) as (_ & _ & _ & _ & _ & Hok);
    rewrite ?hstack_app, ?length_app; try assumption;
    try (apply array_min_twice; assumption);
    try (apply array_max_twice; assumption); try lia.
  eexists. split; [exact Hok|].
  cbn [extent xedges yedges counts heatmap].
  do 3 (split; [reflexivity|]).
  set (nx := Z.to_nat (bin_count xmax xmin res)) in *.
  set (ny := Z.to_nat (bin_count ymax ymin res)) in *.
  set (xe := linspace xmin xmax nx) in *.
  set (ye := linspace ymin ymax ny) in *.
  set (xw := hstack axw) in *. set (yw := hstack ayw) in *.
  set (int := hstack aint) in *.
  rewrite !hstack_app. fold xw yw int.
  rewrite map_app, !combine_app
    by (rewrite ?length_combine, ?length_map; lia).
  set (ones := combine (combine xw yw) (map (fun _ : Q => 1) xw)).
  set (wts := combine (combine xw yw) int).
  intros i j.
  destruct (Nat.lt_ge_cases i nx) as [Hi|Hi];
    [destruct (Nat.lt_ge_cases j ny) as [Hj|Hj]|].
  - pose proof (cell_twice xe ye nx ny ones i j Hi Hj) as Hc2.
    pose proof (cell_twice xe ye nx ny wts i j Hi Hj) as Hs2.
    split; [exact Hc2|].
    destruct (cell_count_and_sum xe ye nx ny xw yw int i j Hly Hli Hi Hj)
      as (_ & Hs & _ & Hzero).
    fold ones wts in Hs, Hzero.
    rewrite !cell_divide_masked;
      rewrite ?core_hist_length, ?core_hist_row by exact Hi;
      try assumption.
    destruct (Qlt_bool 0 (cell (core_hist xe ye nx ny (ones ++ ones)) i j))
      eqn:P2;
      destruct (Qlt_bool 0 (cell (core_hist xe ye nx ny ones) i j)) eqn:P1.
    + apply Qlt_bool_iff in P1. rewrite Hc2, Hs2. field. lra.
    + exfalso. apply Qlt_bool_iff in P2. rewrite Hc2 in P2.
      assert (Qlt_bool 0 (cell (core_hist xe ye nx ny ones) i j) = true)
        by (apply Qlt_bool_iff; lra).
      congruence.
    + exfalso. apply Qlt_bool_iff in P1.
      assert (Qlt_bool 0 (cell (core_hist xe ye nx ny (ones ++ ones)) i j)
              = true) by (apply Qlt_bool_iff; rewrite Hc2; lra).
      congruence.
    + rewrite Hs2, Hs.
      rewrite Hzero by (intros H; apply Qlt_bool_iff in H; congruence).
      cbn [map Qsum fold_right]. ring.
  - assert (~ ((i < nx)%nat /\ (j < ny)%nat)) as Hout by lia.
    destruct (hist_cells_outside xe ye nx ny ones wts i j Hout) as [-> ->].
    destruct (hist_cells_outside xe ye nx ny (ones ++ ones) (wts ++ wts)
                                 i j Hout) as [-> ->].
    split; ring.
  - assert (~ ((i < nx)%nat /\ (j < ny)%nat)) as Hout by lia.
    destruct (hist_cells_outside xe ye nx ny ones wts i j Hout) as [-> ->].
    destruct (hist_cells_outside xe ye nx ny (ones ++ ones) (wts ++ wts)
                                 i j Hout) as [-> ->].
    split; ring.
Qed.

(** ** Worked examples for the further properties *)

(** X1 on a bag with position and heading but no altitude. *)
Lemma missing_nav_topic_no_map_witness :
  let msgs := [GlobalPosition 0 0; CompassHdg 0; frame1 x00 x00 x01;
               frame1 x03 x03 x02] in
  @main synthetic (command_line 1 None None) msgs
  = Raised (RuntimeError no_sonar_data).
Proof.
  cbn zeta.
  apply (@missing_nav_topic_no_map synthetic (command_line 1 None None)).
  right. right. intros d [H|[H|[H|[H|[]]]]]; discriminate H.
Defined.

(** X2 from a complete pose: three sonar messages, one of them not a ping
    and one after a new heading, are all counted. *)
Lemma complete_pose_stays_complete_witness :
  let msgs := [frame1 x00 x00 x01; CompassHdg 90; not_a_ping;
               frame1 x03 x03 x02] in
  total_raw_frames
    (fst (@for_messages synthetic (parse_args (command_line 1 None None))
                        posed msgs)) = 3%Z.
Proof.
  cbn zeta.
  apply (proj2 (@complete_pose_stays_complete synthetic
                  (parse_args (command_line 1 None None)) posed
                  [frame1 x00 x00 x01; CompassHdg 90; not_a_ping;
                   frame1 x03 x03 x02] eq_refl) eq_refl).
Defined.

Lemma triples_lengths data :
  forall px, triples data = Some px ->
  length (map snd px) = length (map (fun s : sample => fst (fst s)) px) /\
  length (map (fun s : sample => snd (fst s)) px)
  = length (map (fun s : sample => fst (fst s)) px).
Proof.
  intros px _. rewrite !length_map. split; reflexivity.
Qed.

Lemma synthetic_same_shape data polar :
  @unpack_data_entry synthetic data = Some polar ->
  same_shape (@polar_to_cart synthetic polar).
Proof.
  cbn [unpack_data_entry polar_to_cart synthetic]. unfold synthetic_unpack.
  destruct data as [|b data]; [discriminate|].
  destruct (triples (b :: data)) as [px|] eqn:E; [|discriminate].
  intros [= <-]. destruct (triples_lengths _ _ E) as [H1 H2].
  unfold same_shape, synthetic_cart, ravel. cbn [x_table y_table cart_image
    polar_image bearing_table ranging_table concat].
  rewrite !app_nil_r. split; [exact H2 | exact H1].
Qed.

(** X4 with the synthetic decoder, whose frames hold one value per pixel
    in each table. *)
Lemma samples_stay_aligned_witness :
  aligned (fst (@for_messages synthetic
                  (parse_args (command_line 2 None None)) init
                  (nav ++ [frame2 x00 x00 x0a x03 x03 x1e;
                           frame1 x01 x02 x05]))).
Proof.
  apply (proj1 (@samples_stay_aligned synthetic (command_line 2 None None)
                  (nav ++ [frame2 x00 x00 x0a x03 x03 x1e;
                           frame1 x01 x02 x05])
                  synthetic_same_shape)).
Defined.


(** A positive resolution and samples that differ in x and in y are not
    enough for a map: at the smallest positive float64 the quotient of line
    135 is infinite and no map is built. *)
Lemma tiny_resolution_builds_no_map :
  0 < 2 ^ (-1074) /\
  build_map (2 ^ (-1074)) [[0]; [1]] [[0]; [1]] [[1]; [1]]
  = inl (OverflowError "cannot convert float infinity to integer").
Proof.
  split; vm_compute; reflexivity.
Qed.

(** X7 on the samples (0,0,10), (0,0,20), (3,3,30) at resolution 2: the
    counts add up to 3. *)
Lemma binning_conserves_samples_witness :
  exists m,
    build_map 2 [[0]; [0]; [3]] [[0]; [0]; [3]] [[10]; [20]; [30]] = inr m /\
    grid_total (counts m) == 3.
Proof.
  eexists. split; [vm_compute; reflexivity|].
  refine (binning_conserves_samples
            2 [[0]; [0]; [3]] [[0]; [0]; [3]] [[10]; [20]; [30]] _ _).
  vm_compute. reflexivity.
Defined.

(** X8 on the same samples: every covered cell lies between 10 and 30. *)
Lemma covered_cell_within_range_witness :
  exists m,
    build_map 2 [[0]; [0]; [3]] [[0]; [0]; [3]] [[10]; [20]; [30]] = inr m /\
    10 <= cell (heatmap m) 0 0 /\ cell (heatmap m) 0 0 <= 30.
Proof.
  eexists. split; [vm_compute; reflexivity|].
  refine (covered_cell_within_range
            2 [[0]; [0]; [3]] [[0]; [0]; [3]] [[10]; [20]; [30]] _ 10 30
            _ _ 0%nat 0%nat _).
  - vm_compute. reflexivity.
  - intros w [<-|[<-|[<-|[]]]]; split; discriminate.
  - vm_compute. reflexivity.
Defined.

(** X9 on the same samples. *)
Lemma doubled_samples_same_means_witness :
  exists m',
    build_map 2 ([[0]; [0]; [3]] ++ [[0]; [0]; [3]])
              ([[0]; [0]; [3]] ++ [[0]; [0]; [3]])
              ([[10]; [20]; [30]] ++ [[10]; [20]; [30]]) = inr m' /\
    cell (counts m') 0 0 == 4 /\ cell (heatmap m') 0 0 == 15.
Proof.
  destruct (doubled_samples_same_means
              2 [[0]; [0]; [3]] [[0]; [0]; [3]] [[10]; [20]; [30]]
              (mkMap [[30 # 2; 0]; [0; 30]] [[2; 0]; [0; 1]]
                     [0 # 2; 3 # 2; 3] [0 # 2; 3 # 2; 3] (0, 3, 0, 3))
              eq_refl) as (m' & Hb & _ & _ & _ & Hcells).
  exists m'. split; [exact Hb|].
  destruct (Hcells 0%nat 0%nat) as [Hc Hh].
  split; [rewrite Hc | rewrite Hh]; vm_compute; reflexivity.
Defined.

(** X10 with a decoder whose frames are empty: one batch, no sample, and
    the run ends with the ValueError of the empty minimum. *)
Lemma empty_guard_counts_batches_witness :
  @main blank (command_line 1 None None) (nav ++ [frame1 x00 x00 x01])
  = Raised (ValueError zero_size).
Proof.
  apply (proj2 (@empty_guard_counts_batches blank (command_line 1 None None)
                  (nav ++ [frame1 x00 x00 x01]))).
  - vm_compute. discriminate.
  - vm_compute. reflexivity.
Defined.

(** X11 with a cap of 5 on a bag of two frames. *)
Lemma unreached_cap_changes_nothing_witness :
  let msgs := nav ++ [frame1 x00 x00 x01; frame1 x03 x03 x02] in
  @main synthetic (command_line 2 (Some 5%Z) None) msgs
  = @main synthetic (command_line 2 None None) msgs.
Proof.
  cbn zeta.
  apply (@unreached_cap_changes_nothing synthetic
           (command_line 2 (Some 5%Z) None) 5
           (nav ++ [frame1 x00 x00 x01; frame1 x03 x03 x02]) eq_refl).
  vm_compute. discriminate.
Defined.
